(** * LazyLoad: retry orchestration, timers and recovery bridge

    A shallow embedding of [src/LazyLoad.tsx].  The component keeps its
    mutable cells ([timersRef], [isMountedRef], the two keys) in one
    [State] record that every function threads explicitly; the host
    (the browser's timer facility, the promises returned by [importFn],
    React's render cycle and the error boundary) is part of the same
    record, so that a whole run is a sequence of [Event]s applied by
    [step].  Every externally visible effect is appended to [trace]. *)

From Stdlib Require Import ZArith Lia.
From stdpp Require Import base gmap sets list strings.

Open Scope Z_scope.

(** ** Values *)

Record Error := mkError { message : string }.

(** [new Error("Import cancelled due to component unmount")] *)
Definition cancelError : Error :=
  mkError "Import cancelled due to component unmount".

(** What a promise returned by [importFn()] rejects with.  The type of
    [importFn] is [() => Promise<any>] (line 17), so the reason is any
    value; the component reads only its [message] (line 150), and that
    read throws a TypeError exactly when the reason is [undefined] or
    [null].  [Thrown error] is any other reason, an error object in
    practice, seen through its [message]. *)
Inductive Reason :=
| Nullish
| Thrown (error : Error).

(** Settlement of one promise returned by [importFn()]: every call of
    [importFn] is taken to return a promise, which is fulfilled with a
    module, rejected, or still pending. *)
Inductive Outcome :=
| Fulfilled (module : string)
| Failed (reason : Reason).

(** The promise handed to [React.lazy]. *)
Inductive ResourceHandle :=
| pending
| resolved (module : string)
| rejected (error : Error).

(** [resolve] and [reject] of a JavaScript promise: only a pending
    promise changes state. *)
Definition resolve (module : string) (h : ResourceHandle) : ResourceHandle :=
  match h with pending => resolved module | _ => h end.

Definition reject (error : Error) (h : ResourceHandle) : ResourceHandle :=
  match h with pending => rejected error | _ => h end.

(** The locals of one run of the promise executor (lines 124-169). *)
Record LoaderInstance := mkInstance {
  attempts : Z;
  currentAttemptCancelled : bool;
  handle : ResourceHandle;
}.

(** ** Views *)

Inductive Callback :=
| handleRetryCb
| userCb (name : string).

Inductive PropValue :=
| PError (error : Error)
| PCallback (cb : Callback)
| PText (text : string).

Inductive ComponentType :=
| DefaultLoadingAnimation
| DefaultErrorComponent
| UserComponent (name : string).

Record Element := mkElement {
  etype : ComponentType;
  eprops : list (string * PropValue);
}.

(** What the caller may pass as [loadingComponent] / [errorComponent],
    by the runtime tests the code applies to it. *)
Inductive Override :=
| Unset
| IsElement (e : Element)
| IsFunction (c : ComponentType)
| OtherValue (v : string).

Inductive View :=
| VElement (e : Element)
| VRaw (v : string).

Fixpoint setProp (k : string) (v : PropValue) (ps : list (string * PropValue))
  : list (string * PropValue) :=
  match ps with
  | [] => [(k, v)]
  | (k', v') :: ps' =>
      if String.eqb k k' then (k, v) :: ps' else (k', v') :: setProp k v ps'
  end.

Fixpoint getProp (k : string) (ps : list (string * PropValue)) : option PropValue :=
  match ps with
  | [] => None
  | (k', v') :: ps' => if String.eqb k k' then Some v' else getProp k ps'
  end.

(** [React.cloneElement(element, props)]: same type, the new props
    merged over the element's own. *)
Definition cloneElement (e : Element) (props : list (string * PropValue)) : Element :=
  mkElement (etype e) (foldl (fun ps kv => setProp kv.1 kv.2 ps) (eprops e) props).

(** ** Effects *)

Inductive Level := LInfo | LError.

Inductive LogLine :=
| LogUnmounted
| LogCreating (retryKey : Z)
| LogAttemptFailed (attempts retries : Z) (msg : string)
| LogRetryingIn (delay : Z)
| LogLazyLoadError (e : Error)
| LogComponentStack (stack : string)
| LogForcing
| LogRetryingLoading
| LogRemounting (newKey : Z).

Inductive Effect :=
| EImport (gen : Z) (call : nat)
| ELog (level : Level) (line : LogLine)
| ESetTimeout (id : nat) (delay : Z)
| EClearTimeout (id : nat)
| EResolve (gen : Z) (module : string)
| EReject (gen : Z) (error : Error)
| ESetRetryKey (next : Z)
| ESetMountKey (next : Z)
| EOnError (error : Error) (componentStack : string)
| EOnRetry
| EUncaughtTypeError (gen : Z).

(** ** Props and state *)

Record Props := mkProps {
  importFn : nat -> Outcome;
  retries : Z;
  retryDelay : Z;
  loadingComponent : Override;
  errorComponent : Override;
  onError : bool;
  onRetry : bool;
  verbose : bool;
}.

Record State := mkState {
  mountKey : Z;
  retryKey : Z;
  timersRef : gset nat;
  isMountedRef : bool;
  timeouts : gmap nat (Z * Z);
  nextTimerId : nat;
  instances : gmap Z LoaderInstance;
  imports : gmap nat Z;
  calls : nat;
  renderedKey : option Z;
  boundaryError : option Error;
  trace : list Effect;
}.

Definition initialState : State :=
  mkState 0 0 ∅ true ∅ 0%nat ∅ ∅ 0%nat None None [].

Definition emit (e : Effect) (s : State) : State :=
  mkState (mountKey s) (retryKey s) (timersRef s) (isMountedRef s) (timeouts s)
    (nextTimerId s) (instances s) (imports s) (calls s) (renderedKey s)
    (boundaryError s) (trace s ++ [e]).

Definition setMounted (b : bool) (s : State) : State :=
  mkState (mountKey s) (retryKey s) (timersRef s) b (timeouts s)
    (nextTimerId s) (instances s) (imports s) (calls s) (renderedKey s)
    (boundaryError s) (trace s).

Definition setTimers (t : gset nat) (s : State) : State :=
  mkState (mountKey s) (retryKey s) t (isMountedRef s) (timeouts s)
    (nextTimerId s) (instances s) (imports s) (calls s) (renderedKey s)
    (boundaryError s) (trace s).

Definition setTimeouts (t : gmap nat (Z * Z)) (s : State) : State :=
  mkState (mountKey s) (retryKey s) (timersRef s) (isMountedRef s) t
    (nextTimerId s) (instances s) (imports s) (calls s) (renderedKey s)
    (boundaryError s) (trace s).

Definition setNextTimerId (n : nat) (s : State) : State :=
  mkState (mountKey s) (retryKey s) (timersRef s) (isMountedRef s) (timeouts s)
    n (instances s) (imports s) (calls s) (renderedKey s)
    (boundaryError s) (trace s).

Definition setInstances (i : gmap Z LoaderInstance) (s : State) : State :=
  mkState (mountKey s) (retryKey s) (timersRef s) (isMountedRef s) (timeouts s)
    (nextTimerId s) i (imports s) (calls s) (renderedKey s)
    (boundaryError s) (trace s).

Definition setImports (i : gmap nat Z) (s : State) : State :=
  mkState (mountKey s) (retryKey s) (timersRef s) (isMountedRef s) (timeouts s)
    (nextTimerId s) (instances s) i (calls s) (renderedKey s)
    (boundaryError s) (trace s).

Definition setCalls (n : nat) (s : State) : State :=
  mkState (mountKey s) (retryKey s) (timersRef s) (isMountedRef s) (timeouts s)
    (nextTimerId s) (instances s) (imports s) n (renderedKey s)
    (boundaryError s) (trace s).

Definition setRetryKey (k : Z) (s : State) : State :=
  mkState (mountKey s) k (timersRef s) (isMountedRef s) (timeouts s)
    (nextTimerId s) (instances s) (imports s) (calls s) (renderedKey s)
    (boundaryError s) (trace s).

Definition setMountKey (k : Z) (s : State) : State :=
  mkState k (retryKey s) (timersRef s) (isMountedRef s) (timeouts s)
    (nextTimerId s) (instances s) (imports s) (calls s) (renderedKey s)
    (boundaryError s) (trace s).

Definition setRenderedKey (k : option Z) (s : State) : State :=
  mkState (mountKey s) (retryKey s) (timersRef s) (isMountedRef s) (timeouts s)
    (nextTimerId s) (instances s) (imports s) (calls s) k
    (boundaryError s) (trace s).

Definition setBoundaryError (e : option Error) (s : State) : State :=
  mkState (mountKey s) (retryKey s) (timersRef s) (isMountedRef s) (timeouts s)
    (nextTimerId s) (instances s) (imports s) (calls s) (renderedKey s)
    e (trace s).

(** ** The component *)

Section Component.

Variable p : Props.

(** [log] (lines 59-72): silent unless [verbose]. *)
Definition log (level : Level) (line : LogLine) (s : State) : State :=
  if verbose p then emit (ELog level line) s else s.

(** [createSafeTimeout] (lines 79-97).  The callback is always
    [tryImport] of some loader instance, so the host's timer table
    stores the generation of that instance together with the delay. *)
Definition createSafeTimeout (gen : Z) (delay : Z) (s : State) : State :=
  if negb (isMountedRef s) then s
  else
    let timerId := nextTimerId s in
    let s1 := setTimeouts (<[timerId := (gen, delay)]> (timeouts s)) s in
    let s2 := setNextTimerId (S timerId) s1 in
    let s3 := emit (ESetTimeout timerId delay) s2 in
    setTimers ({[timerId]} ∪ timersRef s3) s3.

(** [clearTimeout(timerId)] of the host. *)
Definition clearTimeout (timerId : nat) (s : State) : State :=
  emit (EClearTimeout timerId) (setTimeouts (delete timerId (timeouts s)) s).

(** [clearAllTimers] (lines 99-104). *)
Definition clearAllTimers (s : State) : State :=
  setTimers ∅ (foldl (fun acc timerId => clearTimeout timerId acc) s
                     (elements (timersRef s))).

(** Cleanup of the mount effect (lines 109-113). *)
Definition unmount (s : State) : State :=
  log LInfo LogUnmounted (clearAllTimers (setMounted false s)).

Definition updateHandle (f : ResourceHandle -> ResourceHandle) (gen : Z)
    (s : State) : State :=
  setInstances
    (alter (fun i => mkInstance (attempts i) (currentAttemptCancelled i)
                       (f (handle i))) gen (instances s)) s.

(** Calls of the executor's [resolve] and [reject]. *)
Definition resolveHandle (gen : Z) (module : string) (s : State) : State :=
  emit (EResolve gen module) (updateHandle (resolve module) gen s).

Definition rejectHandle (gen : Z) (err : Error) (s : State) : State :=
  emit (EReject gen err) (updateHandle (reject err) gen s).

(** [tryImport] up to the call of [importFn()] (lines 128-134): the
    returned promise is recorded in [imports] under its call number,
    with the instance whose handlers are attached to it. *)
Definition tryImport (gen : Z) (s : State) : State :=
  match instances s !! gen with
  | None => s
  | Some inst =>
      if currentAttemptCancelled inst || negb (isMountedRef s)
      then rejectHandle gen cancelError s
      else
        let call := calls s in
        let s1 := setImports (<[call := gen]> (imports s)) s in
        emit (EImport gen call) (setCalls (S call) s1)
  end.

(** The [.then] handler (lines 135-139). *)
Definition onImportFulfilled (gen : Z) (module : string) (s : State) : State :=
  match instances s !! gen with
  | None => s
  | Some inst =>
      if negb (currentAttemptCancelled inst) && isMountedRef s
      then resolveHandle gen module s
      else s
  end.

(** The [.catch] handler (lines 140-161).  After [attempts++] the
    arguments of [log] are evaluated, [error.message] among them (line
    150), whether or not [verbose] is set: on a reason that is
    [undefined] or [null] this throws a TypeError and the handler ends
    there, having called neither [reject] nor [createSafeTimeout]; the
    promise of the handler rejects with the TypeError and nothing
    handles it. *)
Definition onImportRejected (gen : Z) (reason : Reason) (s : State) : State :=
  match instances s !! gen with
  | None => s
  | Some inst =>
      if currentAttemptCancelled inst || negb (isMountedRef s)
      then rejectHandle gen cancelError s
      else
        let n := attempts inst + 1 in
        let s1 :=
          setInstances
            (<[gen := mkInstance n (currentAttemptCancelled inst) (handle inst)]>
               (instances s)) s in
        match reason with
        | Nullish => emit (EUncaughtTypeError gen) s1
        | Thrown err =>
            let s2 :=
              log LInfo (LogAttemptFailed n (retries p) (message err)) s1 in
            if n >=? retries p then rejectHandle gen err s2
            else
              let delay := retryDelay p * n in
              createSafeTimeout gen delay (log LInfo (LogRetryingIn delay) s2)
        end
  end.

(** The promise executor (lines 124-169): fresh locals, then the first
    [tryImport()]. *)
Definition executor (gen : Z) (s : State) : State :=
  tryImport gen
    (setInstances (<[gen := mkInstance 0 false pending]> (instances s)) s).

(** The function the executor returns (lines 166-168).  A promise
    constructor ignores what its executor returns, so no event of
    [step] below ever runs it. *)
Definition cancelAttempt (gen : Z) (s : State) : State :=
  setInstances
    (alter (fun i => mkInstance (attempts i) true (handle i)) gen
       (instances s)) s.

(** Host: the promise of call number [call] settles and runs the
    handler attached to it. *)
Definition settleImport (call : nat) (s : State) : State :=
  match imports s !! call with
  | None => s
  | Some gen =>
      let s1 := setImports (delete call (imports s)) s in
      match importFn p call with
      | Fulfilled module => onImportFulfilled gen module s1
      | Failed reason => onImportRejected gen reason s1
      end
  end.

(** Host: timeout [timerId] fires and runs the wrapper of lines 85-91. *)
Definition fireTimer (timerId : nat) (s : State) : State :=
  match timeouts s !! timerId with
  | None => s
  | Some (gen, _) =>
      let s1 := setTimeouts (delete timerId (timeouts s)) s in
      let s2 := setTimers (timersRef s1 ∖ {[timerId]}) s1 in
      if isMountedRef s2 then tryImport gen s2 else s2
  end.

(** [handleError] (lines 180-189). *)
Definition handleError (err : Error) (componentStack : string) (s : State)
  : State :=
  let s1 := log LError (LogLazyLoadError err) s in
  let s2 := log LError (LogComponentStack componentStack) s1 in
  if onError p then emit (EOnError err componentStack) s2 else s2.

(** [retryLazyComponent] (lines 192-196).  A state setter called with
    an updater is modelled by applying the updater at the call. *)
Definition retryLazyComponent (s : State) : State :=
  let s1 := log LInfo LogForcing s in
  let s2 := clearAllTimers s1 in
  let next := retryKey s2 + 1 in
  setRetryKey next (emit (ESetRetryKey next) s2).

(** [handleReset] (lines 199-214). *)
Definition handleReset (s : State) : State :=
  let s1 := log LInfo LogRetryingLoading s in
  let s2 := retryLazyComponent s1 in
  let newKey := mountKey s2 + 1 in
  let s3 :=
    setMountKey newKey
      (log LInfo (LogRemounting newKey) (emit (ESetMountKey newKey) s2)) in
  if onRetry p then emit EOnRetry s3 else s3.

(** Host: the boundary's [resetErrorBoundary].  While it holds an error
    it calls its [onReset] prop, which line 279 binds to [handleReset],
    and then drops the error. *)
Definition resetErrorBoundary (s : State) : State :=
  match boundaryError s with
  | Some _ => setBoundaryError None (handleReset s)
  | None => s
  end.

(** [handleRetry] (lines 224-227), the reset trigger given to the
    error view. *)
Definition handleRetry (s : State) : State :=
  resetErrorBoundary (handleReset s).

Definition invoke (cb : Callback) (s : State) : State :=
  match cb with
  | handleRetryCb => handleRetry s
  | userCb _ => s
  end.

(** Host: the boundary catches an error thrown below it, keeps it and
    calls its [onError] prop, which line 278 binds to [handleError]. *)
Definition capture (err : Error) (componentStack : string) (s : State) : State :=
  handleError err componentStack (setBoundaryError (Some err) s).

Definition retryProps (err : Error) : list (string * PropValue) :=
  [("error"%string, PError err);
   ("resetErrorBoundary"%string, PCallback handleRetryCb)].

(** [ErrorFallback] (lines 217-255). *)
Definition ErrorFallback (err : Error) : View :=
  match errorComponent p with
  | IsElement e => VElement (cloneElement e (retryProps err))
  | IsFunction c => VElement (mkElement c (retryProps err))
  | OtherValue v => VRaw v
  | Unset => VElement (mkElement DefaultErrorComponent (retryProps err))
  end.

(** [renderLoadingComponent] (lines 258-273). *)
Definition renderLoadingComponent : View :=
  match loadingComponent p with
  | Unset => VElement (mkElement DefaultLoadingAnimation [])
  | IsElement e => VElement e
  | IsFunction c => VElement (mkElement c [])
  | OtherValue v => VRaw v
  end.

(** Host: one render and commit of the mounted component (lines
    117-177 and 275-288), in three stages.  [useMemo] builds a new lazy
    component when [retryKey] differs from the previous render. *)
Definition memoLazyComponent (s : State) : State :=
  if decide (renderedKey s = Some (retryKey s)) then s
  else log LInfo (LogCreating (retryKey s)) s.

(** Host: the component stack React reports for a failure raised by
    the lazy component.  Its text depends on the application and plays
    no role below. *)
Definition lazyStack : string := "at Lazy".

(** Host: rendering the children of the boundary (lines 282-286),
    which happens while the boundary holds no error.  The factory of
    the lazy component runs the first time the component is rendered.
    Once its promise is rejected, [React.lazy] throws the rejection:
    the boundary captures it.  A pending promise suspends and a
    resolved one renders the loaded component. *)
Definition renderChildren (s : State) : State :=
  match boundaryError s, instances s !! retryKey s with
  | None, None => executor (retryKey s) s
  | None, Some inst =>
      match handle inst with
      | rejected err => capture err lazyStack s
      | _ => s
      end
  | Some _, _ => s
  end.

(** The effect of lines 173-177 clears the timers when [retryKey] has
    changed since the last commit. *)
Definition commitRetryKeyEffect (previous : option Z) (s : State) : State :=
  match previous with
  | Some k => if decide (k = retryKey s) then s else clearAllTimers s
  | None => s
  end.

Definition render (s : State) : State :=
  if negb (isMountedRef s) then s
  else
    setRenderedKey (Some (retryKey s))
      (commitRetryKeyEffect (renderedKey s)
         (renderChildren (memoLazyComponent s))).

(** ** Runs *)

(** What the host can do to a mounted component: render it (which
    raises the rejection of the current handle to the boundary), settle
    one of the promises [importFn] returned, fire a timeout, let the
    boundary catch an error thrown below it (as when the loaded
    component throws while rendering), call the boundary's [onReset],
    use the reset trigger of the error view, unmount the component. *)
Inductive Event :=
| Render
| SettleImport (call : nat)
| FireTimer (timerId : nat)
| Capture (err : Error) (componentStack : string)
| Reset
| Retry
| Unmount.

Definition step (ev : Event) (s : State) : State :=
  match ev with
  | Render => render s
  | SettleImport call => settleImport call s
  | FireTimer timerId => fireTimer timerId s
  | Capture err stack => capture err stack s
  | Reset => handleReset s
  | Retry => handleRetry s
  | Unmount => unmount s
  end.

Definition run (evs : list Event) (s : State) : State :=
  foldl (fun acc ev => step ev acc) s evs.

(** The event loop left alone: settle the pending import if there is
    one, otherwise fire the pending timer, otherwise stop. *)
Definition nextEvent (s : State) : option Event :=
  match map_to_list (imports s) with
  | (call, _) :: _ => Some (SettleImport call)
  | [] =>
      match map_to_list (timeouts s) with
      | (timerId, _) :: _ => Some (FireTimer timerId)
      | [] => None
      end
  end.

Fixpoint drive (fuel : nat) (s : State) : State :=
  match fuel with
  | O => s
  | S fuel' =>
      match nextEvent s with
      | Some ev => drive fuel' (step ev s)
      | None => s
      end
  end.

End Component.

(** ** Reading a trace and a state *)

Definition isOnRetry (e : Effect) : bool :=
  match e with EOnRetry => true | _ => false end.

Definition isOnError (e : Effect) : bool :=
  match e with EOnError _ _ => true | _ => false end.

Definition isImport (e : Effect) : bool :=
  match e with EImport _ _ => true | _ => false end.

(** Number of effects of a kind in a trace. *)
Fixpoint count (f : Effect -> bool) (t : list Effect) : nat :=
  match t with
  | [] => 0%nat
  | e :: t' => ((if f e then 1 else 0) + count f t')%nat
  end.

(** A trace without the console lines of [log]. *)
Fixpoint withoutLogs (t : list Effect) : list Effect :=
  match t with
  | [] => []
  | ELog _ _ :: t' => withoutLogs t'
  | e :: t' => e :: withoutLogs t'
  end.

(** The delays passed to [setTimeout], in the order of the calls. *)
Fixpoint delays (t : list Effect) : list Z :=
  match t with
  | [] => []
  | ESetTimeout _ d :: t' => d :: delays t'
  | _ :: t' => delays t'
  end.

Definition handleOf (gen : Z) (s : State) : option ResourceHandle :=
  handle <$> instances s !! gen.

Definition attemptsOf (gen : Z) (s : State) : option Z :=
  attempts <$> instances s !! gen.

Definition isCallback (e : Effect) : bool := isOnRetry e || isOnError e.

(** The failure the boundary captures when the host renders in state
    [s]: the rejection of the current handle, when the component is
    mounted and the boundary holds no error yet. *)
Definition raised (s : State) : option Error :=
  if isMountedRef s then
    match boundaryError s, handleOf (retryKey s) s with
    | None, Some (rejected err) => Some err
    | _, _ => None
    end
  else None.


(** Events that call no user callback. *)
Definition silent (ev : Event) : bool :=
  match ev with
  | SettleImport _ | FireTimer _ | Unmount => true
  | Render | Capture _ _ | Reset | Retry => false
  end.


(** [clearTimeout] applied to each id of a list, on the host's table. *)
Definition deleteAll (l : list nat) (m : gmap nat (Z * Z)) : gmap nat (Z * Z) :=
  foldl (fun acc id => delete id acc) m l.

(** The delays of linear backoff after [k] failures. *)
Definition linearDelays (p : Props) (k : nat) : list Z :=
  map (fun i => retryDelay p * Z.of_nat i) (seq 1 k).

Arguments linearDelays : simpl never.

(** ** Sample configurations *)

Definition loadFailed : Error := mkError "load failed".

(** A loader that fails on every call. *)
Definition failing (call : nat) : Outcome := Failed (Thrown loadFailed).

(** A loader that fails on its first two calls and loads afterwards. *)
Definition failTwiceThenLoad (call : nat) : Outcome :=
  match call with
  | 0%nat | 1%nat => Failed (Thrown loadFailed)
  | _ => Fulfilled "module"
  end.

(** Loader [f], [retries = n], [retryDelay = d], [verbose = v], both
    callbacks given, the default views. *)
Definition sampleProps (f : nat -> Outcome) (n d : Z) (v : bool) : Props :=
  mkProps f n d Unset Unset true true v.

Definition noRetries : Props := sampleProps failing 0 1000 false.

Definition oneTry : Props := sampleProps failing 1 1000 false.

Definition twoTries : Props := sampleProps failing 2 1000 true.

Definition threeTries : Props := sampleProps failTwiceThenLoad 3 1000 true.

Definition failingLoader : Props := sampleProps failing 3 1000 true.

(** The boundary shows the error view after the only attempt failed. *)
Definition errorShown : State :=
  run oneTry [Render; SettleImport 0%nat; Capture loadFailed "stack"]
    initialState.

(** Both attempts of generation 0 failed, the boundary showed the
    error view, its reset trigger was used, and generation 2 is now
    importing. *)
Definition retriedOnce : State :=
  run twoTries
    [Render; SettleImport 0%nat; FireTimer 0%nat; SettleImport 1%nat;
     Capture loadFailed "stack"; Retry; Render]
    initialState.

(** The trigger, kept by the caller, is used again while generation 2
    is still importing; the next render starts generation 3. *)
Definition rekeyed : State := run twoTries [Retry; Render] retriedOnce.

(** The import of generation 2 fails after that. *)
Definition lateFailure : State := settleImport twoTries 2 rekeyed.



(** A loader whose first two promises reject with [undefined], as
    [new Promise((_, reject) => setTimeout(reject, 10))] does, and that
    loads afterwards. *)
Definition undefinedTwiceThenLoad (call : nat) : Outcome :=
  match call with
  | 0%nat | 1%nat => Failed Nullish
  | _ => Fulfilled "module"
  end.

Definition threeTriesUndefined : Props :=
  sampleProps undefinedTwiceThenLoad 3 1000 true.

(** Its first import has rejected. *)
Definition undefinedStall : State :=
  run threeTriesUndefined [Render; SettleImport 0%nat] initialState.

(** A pre-built view that already carries an [error] prop. *)
Definition customView : Element :=
  mkElement (UserComponent "Oops") [("error"%string, PError cancelError)].

Definition customViewProps : Props :=
  mkProps failing 3 1000 (IsElement customView) (IsElement customView)
    true true false.

(** ** Invariants *)

(** Every id in [timersRef] is a timeout the host still holds, and the
    host never hands out an id twice. *)
Definition TimerInv (s : State) : Prop :=
  (forall id, id ∈ timersRef s -> is_Some (timeouts s !! id)) /\
  (forall id, is_Some (timeouts s !! id) -> (id < nextTimerId s)%nat).

(** [gen]'s handle has settled as [h]. *)
Definition settledAs (gen : Z) (h : ResourceHandle) (s : State) : Prop :=
  handleOf gen s = Some h /\ h <> pending.

(** No instance has its cancellation flag set. *)
Definition flagsClear (s : State) : Prop :=
  forall gen inst,
    instances s !! gen = Some inst -> currentAttemptCancelled inst = false.

(** A state property is [Stable] when the elementary updates keep it:
    emitting an effect other than a user callback, writing a cell no
    property below reads, scheduling and clearing timers, settling a
    handle, counting an attempt and creating an instance.  Every
    function of the component is built from these. *)
Record Stable (P : State -> Prop) : Prop := mkStable {
  st_emit e s : isCallback e = false -> P s -> P (emit e s);
  st_mounted b s : P s -> P (setMounted b s);
  st_imports i s : P s -> P (setImports i s);
  st_calls n s : P s -> P (setCalls n s);
  st_retryKey k s : P s -> P (setRetryKey k s);
  st_mountKey k s : P s -> P (setMountKey k s);
  st_renderedKey k s : P s -> P (setRenderedKey k s);
  st_boundary e s : P s -> P (setBoundaryError e s);
  st_schedule gen delay s : P s -> P (createSafeTimeout gen delay s);
  st_clear s : P s -> P (clearAllTimers s);
  st_expire id s :
    P s ->
    P (setTimers (timersRef s ∖ {[id]})
         (setTimeouts (delete id (timeouts s)) s));
  st_settle f gen s :
    (forall h, h <> pending -> f h = h) -> P s -> P (updateHandle f gen s);
  st_bump gen inst n s :
    instances s !! gen = Some inst -> P s ->
    P (setInstances
         (<[gen := mkInstance n (currentAttemptCancelled inst) (handle inst)]>
            (instances s)) s);
  st_fresh gen s :
    instances s !! gen = None -> P s ->
    P (setInstances (<[gen := mkInstance 0 false pending]> (instances s)) s);
}.

(** ** The attempt loop of one instance *)

(** Generation 0 is waiting for its import number [k] after [k]
    failures, with nothing else going on. *)
Record InFlight (p : Props) (k : nat) (s : State) : Prop := mkInFlight {
  if_mounted : isMountedRef s = true;
  if_imports : imports s = {[k := 0]};
  if_timeouts : timeouts s = ∅;
  if_timers : timersRef s = ∅;
  if_calls : calls s = S k;
  if_next : nextTimerId s = k;
  if_instances : instances s = {[0 := mkInstance (Z.of_nat k) false pending]};
  if_delays : delays (trace s) = linearDelays p k;
  if_count : count isImport (trace s) = S k;
}.

(** Generation 0 has failed [S k] times and waits for timer [k]. *)
Record Waiting (p : Props) (k : nat) (s : State) : Prop := mkWaiting {
  w_mounted : isMountedRef s = true;
  w_imports : imports s = ∅;
  w_timeouts : timeouts s = {[k := (0, retryDelay p * Z.of_nat (S k))]};
  w_timers : timersRef s = {[k]};
  w_calls : calls s = S k;
  w_next : nextTimerId s = S k;
  w_instances :
    instances s = {[0 := mkInstance (Z.of_nat (S k)) false pending]};
  w_delays : delays (trace s) = linearDelays p (S k);
  w_count : count isImport (trace s) = S k;
}.

(** Generation 0 has made [S k] imports, its handle is [h] and nothing
    is left to run. *)
Record Finished (p : Props) (k : nat) (h : ResourceHandle) (s : State)
  : Prop := mkFinished {
  f_mounted : isMountedRef s = true;
  f_imports : imports s = ∅;
  f_timeouts : timeouts s = ∅;
  f_timers : timersRef s = ∅;
  f_calls : calls s = S k;
  f_handle : handleOf 0 s = Some h;
  f_delays : delays (trace s) = linearDelays p k;
  f_count : count isImport (trace s) = S k;
}.

(** ** Props as the caller writes them *)

(** [LazyLoadProps] (lines 15-36): everything but [importFn] may be
    left out.  [componentProps] is only handed on to the loaded
    component and is not modelled. *)
Record LazyLoadProps := mkLazyLoadProps {
  given_importFn : nat -> Outcome;
  given_retries : option Z;
  given_retryDelay : option Z;
  given_loadingComponent : Override;
  given_errorComponent : Override;
  given_onError : bool;
  given_onRetry : bool;
  given_verbose : option bool;
}.

(** The destructuring of lines 47-57 with its default values. *)
Definition destructure (given : LazyLoadProps) : Props :=
  mkProps (given_importFn given)
    (default 3 (given_retries given))
    (default 1000 (given_retryDelay given))
    (given_loadingComponent given)
    (given_errorComponent given)
    (given_onError given)
    (given_onRetry given)
    (default false (given_verbose given)).

(** A caller that passes [importFn] and nothing else. *)
Definition onlyImportFn (f : nat -> Outcome) : LazyLoadProps :=
  mkLazyLoadProps f None None Unset Unset false false None.

(** ** The built-in error view *)

(** What [DefaultErrorComponent] ([src/DefaultErrorComponent.tsx])
    shows: a heading, a text and one button. *)
Record ErrorView := mkErrorView {
  heading : string;
  text : string;
  button : string;
  onClick : Callback;
}.

(** [error.message || 'An unexpected error occurred'] (line 34): the
    empty string is falsy. *)
Definition renderDefaultErrorComponent (error : Error)
    (resetErrorBoundary : Callback) : ErrorView :=
  mkErrorView "Failed to load component"
    (if String.eqb (message error) "" then "An unexpected error occurred"
     else message error)
    "Retry" resetErrorBoundary.

(** Host: React calls the component of an element with the element's
    props. *)
Definition mountErrorView (v : View) : option ErrorView :=
  match v with
  | VElement e =>
      match etype e, getProp "error" (eprops e),
            getProp "resetErrorBoundary" (eprops e) with
      | DefaultErrorComponent, Some (PError err), Some (PCallback cb) =>
          Some (renderDefaultErrorComponent err cb)
      | _, _, _ => None
      end
  | VRaw _ => None
  end.

(** ** Further invariants *)

(** Console lines written by [log]. *)
Definition isLog (e : Effect) : bool :=
  match e with ELog _ _ => true | _ => false end.

(** Every timeout the host holds is in [timersRef]. *)
Definition Tracked (s : State) : Prop :=
  forall id, is_Some (timeouts s !! id) -> id ∈ timersRef s.

(** The component is unmounted and nothing is scheduled. *)
Definition Dead (s : State) : Prop :=
  isMountedRef s = false /\ timeouts s = ∅ /\ timersRef s = ∅.

(** From [s] to [s'] the loader was not called, no timeout was
    scheduled and no attempt was counted. *)
Definition Inert (s s' : State) : Prop :=
  calls s' = calls s /\
  nextTimerId s' = nextTimerId s /\
  (forall gen, attemptsOf gen s' = attemptsOf gen s) /\
  delays (trace s') = delays (trace s) /\
  count isImport (trace s') = count isImport (trace s).

(** Number of console lines so far. *)
Definition logs (s : State) : nat := count isLog (trace s).

(** The two keys of lines 74-75. *)
Definition keysOf (s : State) : Z * Z := (mountKey s, retryKey s).

(** Which instances exist. *)
Definition exists_ (gen : Z) (s : State) : Prop := is_Some (instances s !! gen).

(** The keys agree and bound the generations that exist. *)
Definition KeysInv (s : State) : Prop :=
  mountKey s = retryKey s /\ 0 <= retryKey s /\
  forall gen, exists_ gen s -> 0 <= gen <= retryKey s.

(** Calls of [resolve] or [reject] of generation [gen]. *)
Definition isSettleOf (gen : Z) (e : Effect) : bool :=
  match e with
  | EResolve g _ | EReject g _ => bool_decide (g = gen)
  | _ => false
  end.

(** Calls of the loader by generation [gen]. *)
Definition isImportOf (gen : Z) (e : Effect) : bool :=
  match e with
  | EImport g _ => bool_decide (g = gen)
  | _ => false
  end.

(** How often generation [gen] has called the loader. *)
Definition importsOf (gen : Z) (s : State) : Z :=
  Z.of_nat (count (isImportOf gen) (trace s)).

(** How often [resolve] or [reject] of generation [gen] has been called. *)
Definition settlesOf (gen : Z) (s : State) : nat :=
  count (isSettleOf gen) (trace s).

(** The most attempts one instance makes: [attempts >= retries] is
    only tested after a failure has been counted. *)
Definition limit (p : Props) : Z := Z.max (retries p) 1.

(** 1 for a settled handle, 0 for a pending one. *)
Definition settledBit (h : ResourceHandle) : nat :=
  match h with pending => 0%nat | _ => 1%nat end.

(** Generation [gen] has neither an import nor a timer pending. *)
Definition Idle (gen : Z) (s : State) : Prop :=
  (forall c, imports s !! c <> Some gen) /\
  (forall t d, timeouts s !! t <> Some (gen, d)).

(** The bookkeeping of the attempt loop, for all instances at once.
    No flag is set; an import in flight or a timer belongs to an
    instance whose handle is pending; an instance has at most one of
    them; its loader calls are [attempts] (between attempts) or
    [attempts + 1] (while importing); and its settlements so far are
    counted by its handle. *)
Record Orderly (p : Props) (s : State) : Prop := mkOrderly {
  ord_flags : flagsClear s;
  ord_import : forall c g,
    imports s !! c = Some g ->
    (c < calls s)%nat /\
    exists inst,
      instances s !! g = Some inst /\ handle inst = pending /\
      importsOf g s = attempts inst + 1;
  ord_timer : forall t g d,
    timeouts s !! t = Some (g, d) ->
    (t < nextTimerId s)%nat /\
    exists inst,
      instances s !! g = Some inst /\ handle inst = pending /\
      importsOf g s = attempts inst /\ attempts inst < limit p;
  ord_one_import : forall c1 c2 g,
    imports s !! c1 = Some g -> imports s !! c2 = Some g -> c1 = c2;
  ord_one_timer : forall t1 t2 g d1 d2,
    timeouts s !! t1 = Some (g, d1) -> timeouts s !! t2 = Some (g, d2) ->
    t1 = t2;
  ord_inst : forall g inst,
    instances s !! g = Some inst ->
    0 <= attempts inst <= limit p /\
    attempts inst <= importsOf g s <= attempts inst + 1 /\
    (importsOf g s = attempts inst + 1 -> attempts inst < limit p) /\
    settlesOf g s = settledBit (handle inst);
  ord_none : forall g,
    instances s !! g = None -> importsOf g s = 0 /\ settlesOf g s = 0%nat;
}.

(** [s'] differs from [s] only in cells the invariant does not read,
    in timers taken away, and in effects that are neither loader calls
    nor settlements. *)
Definition Calm (s s' : State) : Prop :=
  imports s' = imports s /\
  calls s' = calls s /\
  (forall t x, timeouts s' !! t = Some x -> timeouts s !! t = Some x) /\
  nextTimerId s' = nextTimerId s /\
  instances s' = instances s /\
  (forall g, importsOf g s' = importsOf g s) /\
  (forall g, settlesOf g s' = settlesOf g s).




(** [s'] has the handles of [s] and no further settlement. *)
Definition Unsettled (s s' : State) : Prop :=
  (forall g, settlesOf g s' = settlesOf g s) /\
  (forall g, is_Some (instances s !! g) -> handleOf g s' = handleOf g s).

(** The calls of [onRetry] so far, against the key. *)
Definition KeyCount (p : Props) (s : State) : Prop :=
  Z.of_nat (count isOnRetry (trace s)) = if onRetry p then retryKey s else 0.


(** Every retry the host holds waits [retryDelay] times the number of
    failed attempts of its instance, and that number leaves an attempt
    to spare. *)
Definition Paced (p : Props) (s : State) : Prop :=
  forall timerId gen delay,
    timeouts s !! timerId = Some (gen, delay) ->
    exists n,
      attemptsOf gen s = Some n /\ delay = retryDelay p * n /\
      1 <= n < retries p.

(** Generation [gen] exists with a pending handle and has nothing
    outstanding. *)
Definition Stalled (gen : Z) (s : State) : Prop :=
  handleOf gen s = Some pending /\ Idle gen s.

(** * Facts *)

(** ** Traces *)

Lemma count_app f t u : count f (t ++ u) = (count f t + count f u)%nat.
Proof. induction t as [|e t IH]; simpl; [done | rewrite IH; lia]. Qed.

Lemma count_clear f l :
  f (EClearTimeout 0%nat) = false ->
  (forall a b, f (EClearTimeout a) = f (EClearTimeout b)) ->
  count f (map EClearTimeout l) = 0%nat.
Proof.
  intros H0 Hall. induction l as [|a l IH]; simpl; [done|].
  rewrite (Hall a 0%nat), H0, IH. done.
Qed.

Lemma delays_app t u : delays (t ++ u) = delays t ++ delays u.
Proof.
  induction t as [|e t IH]; simpl; [done|].
  destruct e; simpl; rewrite ?IH; done.
Qed.

Lemma withoutLogs_app t u : withoutLogs (t ++ u) = withoutLogs t ++ withoutLogs u.
Proof.
  induction t as [|e t IH]; simpl; [done|].
  destruct e; simpl; rewrite ?IH; done.
Qed.

Lemma withoutLogs_clear l : withoutLogs (map EClearTimeout l) = map EClearTimeout l.
Proof. induction l as [|a l IH]; simpl; [done | by rewrite IH]. Qed.

(** ** Clearing the timers *)

Lemma deleteAll_lookup l m i :
  deleteAll l m !! i = if decide (i ∈ l) then None else m !! i.
Proof.
  unfold deleteAll. revert m. induction l as [|a l IH]; intros m; simpl.
  - destruct (decide (i ∈ [])) as [H|H]; [by apply elem_of_nil in H | done].
  - rewrite IH. destruct (decide (i = a)) as [->|Hne].
    + rewrite lookup_delete_eq.
      destruct (decide (a ∈ a :: l)) as [?|Hn]; [by destruct (decide (a ∈ l))|].
      destruct Hn. apply elem_of_cons. by left.
    + rewrite lookup_delete_ne by done.
      destruct (decide (i ∈ l)) as [Hl|Hl], (decide (i ∈ a :: l)) as [Hc|Hc];
        try done.
      * destruct Hc. apply elem_of_cons. by right.
      * apply elem_of_cons in Hc as [?|?]; done.
Qed.

Lemma clearFold_eq l s :
  foldl (fun acc timerId => clearTimeout timerId acc) s l =
  mkState (mountKey s) (retryKey s) (timersRef s) (isMountedRef s)
    (deleteAll l (timeouts s)) (nextTimerId s) (instances s) (imports s)
    (calls s) (renderedKey s) (boundaryError s)
    (trace s ++ map EClearTimeout l).
Proof.
  unfold deleteAll. revert s. induction l as [|a l IH]; intros s; simpl.
  - rewrite app_nil_r. by destruct s.
  - rewrite IH. simpl. by rewrite <- app_assoc.
Qed.

Lemma clearAllTimers_eq s :
  clearAllTimers s =
  mkState (mountKey s) (retryKey s) ∅ (isMountedRef s)
    (deleteAll (elements (timersRef s)) (timeouts s)) (nextTimerId s)
    (instances s) (imports s) (calls s) (renderedKey s) (boundaryError s)
    (trace s ++ map EClearTimeout (elements (timersRef s))).
Proof. unfold clearAllTimers. by rewrite clearFold_eq. Qed.

Lemma clearAllTimers_gone s id :
  id ∈ timersRef s -> timeouts (clearAllTimers s) !! id = None.
Proof.
  intros Hin. rewrite clearAllTimers_eq. simpl. rewrite deleteAll_lookup.
  destruct (decide (id ∈ elements (timersRef s))) as [H|H]; [done|].
  exfalso. apply H. by apply elem_of_elements.
Qed.

(** ** Properties kept by every function of the component *)

Lemma resolve_settled module h : h <> pending -> resolve module h = h.
Proof. by destruct h. Qed.

Lemma reject_settled err h : h <> pending -> reject err h = h.
Proof. by destruct h. Qed.

Section StableFacts.

Context (p : Props) (P : State -> Prop) (HP : Stable P).

Lemma stable_log level line s : P s -> P (log p level line s).
Proof. unfold log. destruct (verbose p); [by apply (st_emit P HP) | done]. Qed.

Lemma stable_resolveHandle gen module s : P s -> P (resolveHandle gen module s).
Proof.
  intros H. apply (st_emit P HP); [done|].
  apply (st_settle P HP); [apply resolve_settled | done].
Qed.

Lemma stable_rejectHandle gen err s : P s -> P (rejectHandle gen err s).
Proof.
  intros H. apply (st_emit P HP); [done|].
  apply (st_settle P HP); [apply reject_settled | done].
Qed.

Lemma stable_tryImport gen s : P s -> P (tryImport gen s).
Proof.
  intros H. unfold tryImport.
  destruct (instances s !! gen) as [inst|]; [|done].
  destruct (_ || _); [by apply stable_rejectHandle|].
  apply (st_emit P HP); [done|]. apply (st_calls P HP). by apply (st_imports P HP).
Qed.

Lemma stable_onImportFulfilled gen module s :
  P s -> P (onImportFulfilled gen module s).
Proof.
  intros H. unfold onImportFulfilled.
  destruct (instances s !! gen) as [inst|]; [|done].
  destruct (_ && _); [by apply stable_resolveHandle | done].
Qed.

Lemma stable_onImportRejected gen reason s :
  P s -> P (onImportRejected p gen reason s).
Proof.
  intros H. unfold onImportRejected.
  destruct (instances s !! gen) as [inst|] eqn:Hinst; [|done].
  destruct (_ || _); [by apply stable_rejectHandle|].
  pose proof (st_bump P HP gen inst (attempts inst + 1) s Hinst H) as H1.
  destruct reason as [|err]; [by apply (st_emit P HP)|].
  destruct (_ >=? _).
  - apply stable_rejectHandle. by apply stable_log.
  - apply (st_schedule P HP). apply stable_log. by apply stable_log.
Qed.

Lemma stable_settleImport call s : P s -> P (settleImport p call s).
Proof.
  intros H. unfold settleImport.
  destruct (imports s !! call) as [gen|]; [|done].
  pose proof (st_imports P HP (delete call (imports s)) s H).
  destruct (importFn p call);
    [by apply stable_onImportFulfilled | by apply stable_onImportRejected].
Qed.

Lemma stable_fireTimer timerId s : P s -> P (fireTimer timerId s).
Proof.
  intros H. unfold fireTimer.
  destruct (timeouts s !! timerId) as [[gen delay]|]; [|done].
  pose proof (st_expire P HP timerId s H) as H1. cbn.
  destruct (isMountedRef s); [by apply stable_tryImport | done].
Qed.

Lemma stable_unmount s : P s -> P (unmount p s).
Proof.
  intros H. unfold unmount. apply stable_log. apply (st_clear P HP).
  by apply (st_mounted P HP).
Qed.

Lemma stable_executor gen s :
  instances s !! gen = None -> P s -> P (executor gen s).
Proof.
  intros Hnone H. unfold executor. apply stable_tryImport.
  by apply (st_fresh P HP).
Qed.

(** The two functions that call a user callback keep [P] when
    emitting that callback does. *)

Lemma stable_handleError err stack s :
  (forall s', P s' -> P (emit (EOnError err stack) s')) ->
  P s -> P (handleError p err stack s).
Proof.
  intros Hcb H. unfold handleError.
  pose proof (stable_log LError (LogComponentStack stack) _
                (stable_log LError (LogLazyLoadError err) _ H)).
  destruct (onError p); [by apply Hcb | done].
Qed.

Lemma stable_capture err stack s :
  (forall s', P s' -> P (emit (EOnError err stack) s')) ->
  P s -> P (capture p err stack s).
Proof.
  intros Hcb H. unfold capture. apply stable_handleError; [done|].
  by apply (st_boundary P HP).
Qed.

Lemma stable_memoLazyComponent s : P s -> P (memoLazyComponent p s).
Proof.
  intros H. unfold memoLazyComponent.
  destruct (decide _) as [?|?]; [done | by apply stable_log].
Qed.

Lemma stable_renderChildren s :
  (forall err stack s', P s' -> P (emit (EOnError err stack) s')) ->
  P s -> P (renderChildren p s).
Proof.
  intros Hcb H. unfold renderChildren.
  destruct (boundaryError s); [done|].
  destruct (instances s !! retryKey s) as [inst|] eqn:Hl.
  - destruct (handle inst); try done. apply stable_capture; [apply Hcb | done].
  - by apply stable_executor.
Qed.

Lemma stable_commitRetryKeyEffect previous s :
  P s -> P (commitRetryKeyEffect previous s).
Proof.
  intros H. unfold commitRetryKeyEffect.
  destruct previous as [k|]; [|done].
  destruct (decide _) as [?|?]; [done | by apply (st_clear P HP)].
Qed.

Lemma stable_render s :
  (forall err stack s', P s' -> P (emit (EOnError err stack) s')) ->
  P s -> P (render p s).
Proof.
  intros Hcb H. unfold render. destruct (negb _); [done|].
  apply (st_renderedKey P HP). apply stable_commitRetryKeyEffect.
  apply stable_renderChildren; [done|]. by apply stable_memoLazyComponent.
Qed.

Lemma stable_retryLazyComponent s : P s -> P (retryLazyComponent p s).
Proof.
  intros H. unfold retryLazyComponent.
  apply (st_retryKey P HP). apply (st_emit P HP); [done|].
  apply (st_clear P HP). by apply stable_log.
Qed.

Lemma stable_handleReset s :
  (forall s', P s' -> P (emit EOnRetry s')) -> P s -> P (handleReset p s).
Proof.
  intros Hcb H. unfold handleReset.
  assert (P (setMountKey
               (mountKey (retryLazyComponent p (log p LInfo LogRetryingLoading s)) + 1)
               (log p LInfo
                  (LogRemounting
                     (mountKey (retryLazyComponent p
                                  (log p LInfo LogRetryingLoading s)) + 1))
                  (emit
                     (ESetMountKey
                        (mountKey (retryLazyComponent p
                                     (log p LInfo LogRetryingLoading s)) + 1))
                     (retryLazyComponent p (log p LInfo LogRetryingLoading s))))))
    as H1.
  { apply (st_mountKey P HP). apply stable_log. apply (st_emit P HP); [done|].
    apply stable_retryLazyComponent. by apply stable_log. }
  cbv zeta. destruct (onRetry p); [by apply Hcb | done].
Qed.

Lemma stable_resetErrorBoundary s :
  (forall s', P s' -> P (emit EOnRetry s')) ->
  P s -> P (resetErrorBoundary p s).
Proof.
  intros Hcb H. unfold resetErrorBoundary.
  destruct (boundaryError s); [|done].
  apply (st_boundary P HP). by apply stable_handleReset.
Qed.

Lemma stable_handleRetry s :
  (forall s', P s' -> P (emit EOnRetry s')) -> P s -> P (handleRetry p s).
Proof.
  intros Hcb H. unfold handleRetry.
  apply stable_resetErrorBoundary; [done|]. by apply stable_handleReset.
Qed.

Lemma stable_silent_step ev s : silent ev = true -> P s -> P (step p ev s).
Proof.
  destruct ev; cbn; try done; intros _ H.
  - by apply stable_settleImport.
  - by apply stable_fireTimer.
  - by apply stable_unmount.
Qed.

Lemma stable_step ev s :
  (forall s', P s' -> P (emit EOnRetry s')) ->
  (forall err stack s', P s' -> P (emit (EOnError err stack) s')) ->
  P s -> P (step p ev s).
Proof.
  intros Hretry Herror H. destruct ev; cbn.
  - by apply stable_render.
  - by apply stable_settleImport.
  - by apply stable_fireTimer.
  - apply stable_capture; [apply Herror | done].
  - by apply stable_handleReset.
  - by apply stable_handleRetry.
  - by apply stable_unmount.
Qed.

End StableFacts.

(** ** The four stable properties *)

Lemma TimerInv_initial : TimerInv initialState.
Proof.
  split; intros id; cbn; [set_solver|].
  rewrite lookup_empty. by intros [? ?].
Qed.

Lemma TimerInv_createSafeTimeout gen delay s :
  TimerInv s -> TimerInv (createSafeTimeout gen delay s).
Proof.
  intros [H1 H2]. unfold createSafeTimeout.
  destruct (isMountedRef s); cbn; [|done].
  split; intros id; cbn; rewrite lookup_insert_is_Some.
  - rewrite elem_of_union, elem_of_singleton. intros [->|Hin]; [by left|].
    destruct (decide (nextTimerId s = id)); [by left | right; auto].
  - intros [<-|[_ Hs]]; [lia|]. apply H2 in Hs. lia.
Qed.

Lemma TimerInv_clearAllTimers s : TimerInv s -> TimerInv (clearAllTimers s).
Proof.
  intros [H1 H2]. rewrite clearAllTimers_eq.
  split; intros id; cbn; [set_solver|].
  intros Hs. apply H2. revert Hs. rewrite deleteAll_lookup.
  destruct (decide (id ∈ elements (timersRef s))) as [?|?];
    [by intros [? ?] | done].
Qed.

Lemma TimerInv_expire id s :
  TimerInv s ->
  TimerInv (setTimers (timersRef s ∖ {[id]})
              (setTimeouts (delete id (timeouts s)) s)).
Proof.
  intros [H1 H2].
  split; intros id'; cbn; rewrite lookup_delete_is_Some.
  - rewrite elem_of_difference, elem_of_singleton.
    intros [Hin Hne]. split; [congruence | auto].
  - intros [_ Hs]. auto.
Qed.

Lemma TimerInv_stable : Stable TimerInv.
Proof.
  split; try done.
  - apply TimerInv_createSafeTimeout.
  - apply TimerInv_clearAllTimers.
  - apply TimerInv_expire.
Qed.

Lemma settledAs_stable gen h : Stable (settledAs gen h).
Proof.
  split; try done; unfold settledAs, handleOf.
  - intros g d s. unfold createSafeTimeout. by destruct (isMountedRef s).
  - intros s. by rewrite clearAllTimers_eq.
  - intros f g s Hf [Hh Hne]. split; [|done]. cbn.
    rewrite lookup_alter.
    destruct (decide (g = gen)) as [->|?]; [|done].
    destruct (instances s !! gen) as [inst|]; [|done].
    cbn in *. injection Hh as <-. by rewrite Hf.
  - intros g inst n s Hinst [Hh Hne]. split; [|done]. cbn.
    destruct (decide (g = gen)) as [->|?].
    + rewrite lookup_insert_eq. by rewrite Hinst in Hh.
    + by rewrite lookup_insert_ne.
  - intros g s Hnone [Hh Hne]. split; [|done]. cbn.
    destruct (decide (g = gen)) as [->|?].
    + by rewrite Hnone in Hh.
    + by rewrite lookup_insert_ne.
Qed.

Lemma flagsClear_stable : Stable flagsClear.
Proof.
  split; try done; unfold flagsClear.
  - intros g d s. unfold createSafeTimeout. by destruct (isMountedRef s).
  - intros s. by rewrite clearAllTimers_eq.
  - intros f g s _ H g' inst. cbn. rewrite lookup_alter.
    destruct (decide (g = g')) as [->|?]; [|by apply H].
    destruct (instances s !! g') as [inst'|] eqn:Hl; [|done].
    cbn. intros [= <-]. cbn. by apply (H g').
  - intros g inst n s Hinst H g' inst'. cbn.
    destruct (decide (g = g')) as [->|?].
    + rewrite lookup_insert_eq. intros [= <-]. cbn. by apply (H g').
    + rewrite lookup_insert_ne by done. by apply H.
  - intros g s _ H g' inst'. cbn.
    destruct (decide (g = g')) as [->|?].
    + rewrite lookup_insert_eq. by intros [= <-].
    + rewrite lookup_insert_ne by done. by apply H.
Qed.

Lemma count_emit f e s :
  count f (trace (emit e s)) = (count f (trace s) + if f e then 1 else 0)%nat.
Proof. cbn. rewrite count_app. cbn. lia. Qed.

Lemma count_stable f c :
  (forall e, isCallback e = false -> f e = false) ->
  Stable (fun s => count f (trace s) = c).
Proof.
  intros Hf. split; try done.
  - intros e s He H. rewrite count_emit, (Hf e He). lia.
  - intros g d s H. unfold createSafeTimeout.
    destruct (isMountedRef s); cbn; [|done].
    rewrite count_app. cbn. rewrite (Hf (ESetTimeout _ _)) by done. lia.
  - intros s H. rewrite clearAllTimers_eq. cbn. rewrite count_app.
    rewrite count_clear; [lia | by apply Hf |].
    intros a b. by rewrite !Hf.
Qed.

Lemma stable_run p P evs s :
  Stable P ->
  (forall s', P s' -> P (emit EOnRetry s')) ->
  (forall err stack s', P s' -> P (emit (EOnError err stack) s')) ->
  P s -> P (run p evs s).
Proof.
  intros HP Hretry Herror. revert s.
  induction evs as [|ev evs IH]; intros s H; cbn; [done|].
  apply IH. by apply stable_step.
Qed.

Lemma tryImport_timersRef gen s : timersRef (tryImport gen s) = timersRef s.
Proof.
  unfold tryImport. destruct (instances s !! gen) as [inst|]; [|done].
  by destruct (_ || _).
Qed.

(** * The claims *)

(** C9.  The handle of a loader instance settles at most once: a
    pending handle becomes resolved or rejected by the first call of
    [resolve] or [reject]; on a settled handle both calls change
    nothing; and whatever events follow (imports settling, timers
    firing, renders, captures, resets, unmount), a handle that has
    settled keeps the state it settled in. *)
Theorem C9_handle_settles_at_most_once p evs s gen h :
  handleOf gen s = Some h -> h <> pending ->
  handleOf gen (run p evs s) = Some h /\
  (forall module, resolve module h = h) /\
  (forall err, reject err h = h) /\
  (forall module, resolve module pending = resolved module) /\
  (forall err, reject err pending = rejected err).
Proof.
  intros Hh Hne. repeat split.
  - apply (stable_run p (settledAs gen h) evs s (settledAs_stable gen h));
      try done.
  - intros module. by apply resolve_settled.
  - intros err. by apply reject_settled.
Qed.

Lemma C9_witness :
  handleOf 0
    (run (sampleProps failing 1 1000 true)
       [Capture loadFailed "stack"; Retry; Render; SettleImport 1%nat;
        SettleImport 0%nat]
       (run (sampleProps failing 1 1000 true) [Render; SettleImport 0%nat]
          initialState))
  = Some (rejected loadFailed).
Proof.
  apply (C9_handle_settles_at_most_once (sampleProps failing 1 1000 true)
           [Capture loadFailed "stack"; Retry; Render; SettleImport 1%nat;
            SettleImport 0%nat]
           (run (sampleProps failing 1 1000 true) [Render; SettleImport 0%nat]
              initialState)
           0 (rejected loadFailed)).
  - vm_compute. reflexivity.
  - discriminate.
Defined.

(** C10.  The timer registry.  In every state the component can reach,
    each id in [timersRef] is a timeout the host still holds (scheduled,
    neither fired nor cleared); after the unmount cleanup
    [createSafeTimeout] changes nothing at all; a firing timer leaves
    the host's table, is deleted from [timersRef] before anything else
    happens, and its callback [tryImport] runs exactly when
    [isMountedRef] is still true; and [clearAllTimers] leaves
    [timersRef] empty and none of its former ids scheduled. *)
Theorem C10_timer_registry p evs s gen delay timerId :
  TimerInv (run p evs initialState) /\
  createSafeTimeout gen delay (unmount p s) = unmount p s /\
  match timeouts s !! timerId with
  | Some (g, _) =>
      let expired :=
        setTimers (timersRef s ∖ {[timerId]})
          (setTimeouts (delete timerId (timeouts s)) s) in
      fireTimer timerId s =
        (if isMountedRef s then tryImport g expired else expired) /\
      timerId ∉ timersRef (fireTimer timerId s)
  | None => fireTimer timerId s = s
  end /\
  timersRef (clearAllTimers s) = ∅ /\
  (forall id, id ∈ timersRef s -> timeouts (clearAllTimers s) !! id = None).
Proof.
  split; [|split; [|split; [|split]]].
  - apply stable_run; try done; [apply TimerInv_stable | apply TimerInv_initial].
  - unfold createSafeTimeout, unmount, log.
    rewrite clearAllTimers_eq. by destruct (verbose p).
  - unfold fireTimer.
    destruct (timeouts s !! timerId) as [[g d]|]; [|done]. cbn.
    split; [done|].
    destruct (isMountedRef s); [rewrite tryImport_timersRef|]; cbn;
      rewrite elem_of_difference, elem_of_singleton; by intros [_ ?].
  - by rewrite clearAllTimers_eq.
  - apply clearAllTimers_gone.
Qed.

Lemma C10_witness :
  timeouts
    (clearAllTimers
       (run (sampleProps failing 3 1000 true) [Render; SettleImport 0%nat]
          initialState)) !! 0%nat = None.
Proof.
  apply (C10_timer_registry (sampleProps failing 3 1000 true) []
           (run (sampleProps failing 3 1000 true) [Render; SettleImport 0%nat]
              initialState) 0 0 0%nat).
  vm_compute. reflexivity.
Defined.

(** ** The attempt loop of one instance *)

Lemma linearDelays_S p k :
  linearDelays p (S k) = linearDelays p k ++ [retryDelay p * Z.of_nat (S k)].
Proof. unfold linearDelays. by rewrite seq_S, map_app. Qed.

Lemma InFlight_initial p : InFlight p 0 (render p initialState).
Proof.
  unfold render, commitRetryKeyEffect, renderChildren, memoLazyComponent, log.
  cbn. destruct (verbose p); by split.
Qed.

Lemma nextEvent_import s call gen :
  imports s = {[call := gen]} -> nextEvent s = Some (SettleImport call).
Proof. intros H. unfold nextEvent. by rewrite H, map_to_list_singleton. Qed.

Lemma nextEvent_timer s timerId entry :
  imports s = ∅ -> timeouts s = {[timerId := entry]} ->
  nextEvent s = Some (FireTimer timerId).
Proof.
  intros H1 H2. unfold nextEvent.
  by rewrite H1, H2, map_to_list_empty, map_to_list_singleton.
Qed.

Lemma nextEvent_idle s : imports s = ∅ -> timeouts s = ∅ -> nextEvent s = None.
Proof. intros H1 H2. unfold nextEvent. by rewrite H1, H2, !map_to_list_empty. Qed.

Lemma attempt_fails p k s err :
  InFlight p k s -> importFn p k = Failed (Thrown err) ->
  Z.of_nat (S k) < retries p ->
  Waiting p k (settleImport p k s).
Proof.
  intros [H1 H2 H3 H4 H5 H6 H7 H8 H9] Hfail Hlt.
  destruct s; cbn in *; subst.
  unfold settleImport; cbn. rewrite lookup_singleton_eq, Hfail.
  unfold onImportRejected; cbn. rewrite lookup_singleton_eq. cbn.
  destruct (Z.geb_spec (Z.of_nat k + 1) (retries p)) as [?|_]; [lia|].
  rewrite insert_singleton_eq, delete_singleton_eq.
  replace (Z.of_nat k + 1) with (Z.of_nat (S k)) by lia.
  unfold log, createSafeTimeout.
  destruct (verbose p); cbn; split; cbn;
    rewrite ?insert_empty, ?delays_app, ?count_app, ?linearDelays_S, ?H8, ?H9;
    cbn; rewrite ?app_nil_r; try done; try lia; apply union_empty_r_L.
Qed.

Lemma timer_fires p k s :
  Waiting p k s -> InFlight p (S k) (fireTimer k s).
Proof.
  intros [H1 H2 H3 H4 H5 H6 H7 H8 H9].
  destruct s; cbn in *; subst.
  unfold fireTimer; cbn. rewrite lookup_singleton_eq. cbn.
  unfold tryImport; cbn. rewrite lookup_singleton_eq. cbn.
  split; cbn;
    rewrite ?insert_empty, ?delete_singleton_eq, ?delays_app, ?count_app,
      ?H8, ?H9; cbn; rewrite ?app_nil_r; try done; try lia;
    apply difference_diag_L.
Qed.

Lemma attempt_exhausts p k s err :
  InFlight p k s -> importFn p k = Failed (Thrown err) ->
  retries p <= Z.of_nat (S k) ->
  Finished p k (rejected err) (settleImport p k s).
Proof.
  intros [H1 H2 H3 H4 H5 H6 H7 H8 H9] Hfail Hle.
  destruct s; cbn in *; subst.
  unfold settleImport; cbn. rewrite lookup_singleton_eq, Hfail.
  unfold onImportRejected; cbn. rewrite lookup_singleton_eq. cbn.
  destruct (Z.geb_spec (Z.of_nat k + 1) (retries p)) as [_|?]; [|lia].
  rewrite insert_singleton_eq, delete_singleton_eq.
  unfold log, rejectHandle, updateHandle, handleOf.
  destruct (verbose p); cbn; split; cbn;
    rewrite ?alter_singleton_eq, ?lookup_singleton_eq, ?delays_app,
      ?count_app, ?H8, ?H9;
    cbn; rewrite ?app_nil_r; try done; lia.
Qed.

(** A rejection with [undefined] or [null]: the attempt is counted and
    the handler throws, which leaves nothing to run and the handle
    pending. *)
Lemma attempt_throws p k s :
  InFlight p k s -> importFn p k = Failed Nullish ->
  Finished p k pending (settleImport p k s) /\
  attemptsOf 0 (settleImport p k s) = Some (Z.of_nat (S k)) /\
  trace (settleImport p k s) = trace s ++ [EUncaughtTypeError 0].
Proof.
  intros [H1 H2 H3 H4 H5 H6 H7 H8 H9] Hfail.
  destruct s; cbn in *; subst.
  unfold settleImport; cbn. rewrite lookup_singleton_eq, Hfail.
  unfold onImportRejected; cbn. rewrite lookup_singleton_eq. cbn.
  rewrite insert_singleton_eq, delete_singleton_eq.
  unfold handleOf, attemptsOf.
  split; [split|]; cbn;
    rewrite ?lookup_singleton_eq, ?delays_app, ?count_app, ?H8, ?H9;
    cbn; rewrite ?app_nil_r; try done; try lia.
  split; [|done]. do 2 f_equal. lia.
Qed.

Lemma attempt_loads p k s module :
  InFlight p k s -> importFn p k = Fulfilled module ->
  Finished p k (resolved module) (settleImport p k s).
Proof.
  intros [H1 H2 H3 H4 H5 H6 H7 H8 H9] Hok.
  destruct s; cbn in *; subst.
  unfold settleImport; cbn. rewrite lookup_singleton_eq, Hok.
  unfold onImportFulfilled; cbn. rewrite lookup_singleton_eq. cbn.
  rewrite delete_singleton_eq.
  unfold resolveHandle, updateHandle, handleOf.
  split; cbn;
    rewrite ?alter_singleton_eq, ?lookup_singleton_eq, ?delays_app,
      ?count_app, ?H8, ?H9;
    cbn; rewrite ?app_nil_r; try done; lia.
Qed.

Lemma drive_round p k s err fuel :
  InFlight p k s -> importFn p k = Failed (Thrown err) ->
  Z.of_nat (S k) < retries p ->
  InFlight p (S k) (fireTimer k (settleImport p k s)) /\
  drive p (S (S fuel)) s = drive p fuel (fireTimer k (settleImport p k s)).
Proof.
  intros Hs Hfail Hlt.
  pose proof (attempt_fails p k s err Hs Hfail Hlt) as Hw.
  split; [by apply timer_fires|].
  cbn [drive]. rewrite (nextEvent_import s k 0) by apply Hs. cbn [step].
  by rewrite (nextEvent_timer _ k _ (w_imports _ _ _ Hw) (w_timeouts _ _ _ Hw)).
Qed.

Lemma drive_rounds p j :
  forall k s,
    InFlight p k s ->
    (forall i, (k <= i < k + j)%nat ->
       (exists err, importFn p i = Failed (Thrown err)) /\ Z.of_nat (S i) < retries p) ->
    exists s',
      InFlight p (k + j) s' /\
      forall fuel, drive p (2 * j + fuel) s = drive p fuel s'.
Proof.
  induction j as [|j IH]; intros k s Hs Hfails.
  - exists s. rewrite Nat.add_0_r. by split.
  - destruct (Hfails k) as [[err Hfail] Hlt]; [lia|].
    destruct (drive_round p k s err 0 Hs Hfail Hlt) as [Hs1 _].
    destruct (IH (S k) _ Hs1) as (s' & Hs' & Hdrive).
    { intros i Hi. apply Hfails. lia. }
    exists s'. split.
    + by replace (k + S j)%nat with (S k + j)%nat by lia.
    + intros fuel.
      replace (2 * S j + fuel)%nat with (S (S (2 * j + fuel))) by lia.
      rewrite <- Hdrive.
      by apply (drive_round p k s err (2 * j + fuel)).
Qed.

Lemma drive_finished p k h s fuel : Finished p k h s -> drive p fuel s = s.
Proof.
  intros Hs. destruct fuel; cbn; [done|].
  by rewrite nextEvent_idle by apply Hs.
Qed.

Lemma drive_settles p k h s fuel :
  InFlight p k s -> Finished p k h (settleImport p k s) ->
  drive p (S fuel) s = settleImport p k s.
Proof.
  intros Hs Hf. cbn [drive].
  rewrite (nextEvent_import s k 0) by apply Hs. cbn [step].
  by apply (drive_finished p k h).
Qed.

(** After [k] failures that each leave an attempt to spare, the run
    from the first render ends in whatever call [k] settles as. *)
Lemma drive_from_mount p k h fuel :
  (forall i, (i < k)%nat ->
     (exists err, importFn p i = Failed (Thrown err)) /\ Z.of_nat (S i) < retries p) ->
  (forall s, InFlight p k s -> Finished p k h (settleImport p k s)) ->
  (2 * k + 1 <= fuel)%nat ->
  Finished p k h (drive p fuel (render p initialState)).
Proof.
  intros Hfails Hlast Hfuel.
  destruct (drive_rounds p k 0%nat _ (InFlight_initial p)) as (s' & Hs' & Hd).
  { intros i Hi. apply Hfails. lia. }
  replace fuel with (2 * k + S (fuel - 2 * k - 1))%nat by lia.
  rewrite Hd, (drive_settles p k h) by auto. auto.
Qed.

(** C1, as the code has it.  With a loader whose promise is rejected
    on every call with an error object (a reason other than
    [undefined] and [null]) and [retries = N], the loader is called
    exactly max(N, 1) times
    (exactly N times when N >= 1), the handle is then rejected with
    the error of the last call, nothing is left pending, and the
    delays scheduled on the way are [retryDelay * 1, ...,
    retryDelay * (max(N, 1) - 1)]; so for N <= 1 the loader is called
    once and no retry is ever scheduled. *)
Theorem C1_loader_called_max_retries_1_times p fuel :
  (forall call, exists err, importFn p call = Failed (Thrown err)) ->
  (2 * Z.to_nat (Z.max (retries p) 1) <= fuel)%nat ->
  let n := Z.to_nat (Z.max (retries p) 1) in
  let s := drive p fuel (render p initialState) in
  calls s = n /\
  count isImport (trace s) = n /\
  (exists err,
     importFn p (n - 1) = Failed (Thrown err) /\ handleOf 0 s = Some (rejected err)) /\
  nextEvent s = None /\
  delays (trace s) = linearDelays p (n - 1) /\
  (retries p <= 1 -> calls s = 1%nat /\ delays (trace s) = []).
Proof.
  intros Hfails Hfuel n s.
  assert (1 <= n)%nat as Hn by (unfold n; lia).
  destruct (Hfails (n - 1)%nat) as [err Herr].
  assert (Finished p (n - 1) (rejected err) s) as Hs.
  { apply drive_from_mount.
    - intros i Hi. split; [apply Hfails | unfold n in *; lia].
    - intros s0 Hs0. apply attempt_exhausts; [done.. |]. unfold n in *. lia.
    - unfold n in *. lia. }
  destruct Hs as [H1 H2 H3 H4 H5 H6 H7 H8].
  replace (S (n - 1)) with n in * by lia.
  repeat split; try done.
  - by exists err.
  - by apply nextEvent_idle.
  - rewrite H5. unfold n. lia.
  - rewrite H7. replace (n - 1)%nat with 0%nat by (unfold n; lia). done.
Qed.

Lemma C1_witness :
  calls (drive (sampleProps failing 3 1000 true) 6
           (render (sampleProps failing 3 1000 true) initialState)) = 3%nat.
Proof.
  apply (C1_loader_called_max_retries_1_times
           (sampleProps failing 3 1000 true) 6).
  - intros call. by exists loadFailed.
  - vm_compute. lia.
Defined.

(** C1 as stated fails for [retries = 0]: the failing loader is called
    once, not zero times, before the handle is rejected. *)
Lemma C1_counterexample :
  (forall call, exists err, importFn noRetries call = Failed (Thrown err)) /\
  retries noRetries = 0 /\
  calls (drive noRetries 10 (render noRetries initialState)) = 1%nat /\
  handleOf 0 (drive noRetries 10 (render noRetries initialState))
    = Some (rejected loadFailed) /\
  Z.of_nat (calls (drive noRetries 10 (render noRetries initialState)))
    <> retries noRetries.
Proof.
  split; [intros call; by exists loadFailed|].
  repeat split; vm_compute; congruence.
Qed.

(** C6.  Linear backoff, and the failing input.  When the loader
    rejects its first [k] calls with an error object and call [k]
    loads, with [k < retries], the delays scheduled are
    [retryDelay * 1, ..., retryDelay * k] in this order (the delay
    after the i-th failure is [retryDelay * i]), the loader is called
    exactly [k + 1] times, and the handle ends resolved with nothing
    left pending.  For [retries = 3], [retryDelay = 1000] and a loader
    failing twice in this way: delays 1000 then 2000, three calls,
    handle resolved.  At the failing input the first two promises
    reject with [undefined]: the handler counts the attempt and throws
    at [error.message] (line 150), so that, however long the event loop
    runs, the loader has been called once, no delay is scheduled and
    the handle stays pending with nothing left to run. *)
Theorem C6_linear_backoff p k module fuel :
  (forall i, (i < k)%nat -> exists err, importFn p i = Failed (Thrown err)) ->
  importFn p k = Fulfilled module ->
  Z.of_nat k < retries p ->
  (2 * k + 1 <= fuel)%nat ->
  let s := drive p fuel (render p initialState) in
  let s3 := drive threeTries 5 (render threeTries initialState) in
  (delays (trace s) = map (fun i => retryDelay p * Z.of_nat i) (seq 1 k) /\
   calls s = S k /\
   count isImport (trace s) = S k /\
   handleOf 0 s = Some (resolved module) /\
   nextEvent s = None) /\
  (delays (trace s3) = [1000; 2000] /\
   calls s3 = 3%nat /\
   count isImport (trace s3) = 3%nat /\
   handleOf 0 s3 = Some (resolved "module")) /\
  ((forall n,
      drive threeTriesUndefined (S n)
        (render threeTriesUndefined initialState) = undefinedStall) /\
   calls undefinedStall = 1%nat /\
   delays (trace undefinedStall) = [] /\
   attemptsOf 0 undefinedStall = Some 1 /\
   handleOf 0 undefinedStall = Some pending /\
   nextEvent undefinedStall = None /\
   withoutLogs (trace undefinedStall) = [EImport 0 0; EUncaughtTypeError 0]).
Proof.
  intros Hfails Hload Hlt Hfuel s s3.
  split; [|split; [by vm_compute|split; [|by vm_compute]]].
  - assert (Finished p k (resolved module) s) as Hs.
    { apply drive_from_mount; [| |done].
      - intros i Hi. split; [by apply Hfails | lia].
      - intros s0 Hs0. by apply attempt_loads. }
    destruct Hs as [H1 H2 H3 H4 H5 H6 H7 H8].
    repeat split; try done. by apply nextEvent_idle.
  - intros n.
    pose proof (InFlight_initial threeTriesUndefined) as Hi.
    destruct (attempt_throws threeTriesUndefined 0 _ Hi eq_refl) as [Hf _].
    apply (drive_settles threeTriesUndefined 0 pending _ n Hi Hf).
Qed.

Lemma C6_witness :
  delays (trace (drive threeTries 5 (render threeTries initialState)))
  = [retryDelay threeTries * 1; retryDelay threeTries * 2].
Proof.
  apply (C6_linear_backoff threeTries 2 "module" 5).
  - intros i Hi. exists loadFailed.
    destruct i as [|[|i]]; [done | done | lia].
  - done.
  - vm_compute. done.
  - lia.
Defined.

(** ** Teardown *)

Lemma unmount_eq p s :
  unmount p s =
  mkState (mountKey s) (retryKey s) ∅ false
    (deleteAll (elements (timersRef s)) (timeouts s)) (nextTimerId s)
    (instances s) (imports s) (calls s) (renderedKey s) (boundaryError s)
    (trace s ++ map EClearTimeout (elements (timersRef s)) ++
       if verbose p then [ELog LInfo LogUnmounted] else []).
Proof.
  unfold unmount, log. rewrite clearAllTimers_eq. cbn.
  destruct (verbose p); unfold emit; cbn.
  - by rewrite <- app_assoc.
  - by rewrite app_nil_r.
Qed.

(** C2, as the code has it.  When the unmount cleanup runs while an
    import is pending, a late success of that import changes nothing
    (the host only forgets the promise): no callback, no settlement,
    no timer, no log line.  A late failure calls [reject] with the
    cancellation error, which settles a handle that was still pending
    as rejected, and does nothing else: no callback, no timer, no log
    line even under [verbose], and the attempt is not counted. *)
Theorem C2_settlement_after_unmount p s call gen inst :
  imports s !! call = Some gen ->
  instances s !! gen = Some inst ->
  let s0 := unmount p s in
  let s1 := settleImport p call s0 in
  match importFn p call with
  | Fulfilled _ => s1 = setImports (delete call (imports s0)) s0
  | Failed _ =>
      trace s1 = trace s0 ++ [EReject gen cancelError] /\
      handleOf gen s1 = Some (reject cancelError (handle inst)) /\
      attemptsOf gen s1 = Some (attempts inst) /\
      timeouts s1 = timeouts s0 /\
      timersRef s1 = ∅ /\
      nextTimerId s1 = nextTimerId s0 /\
      calls s1 = calls s0
  end.
Proof.
  intros Hcall Hinst s0 s1. subst s0 s1. rewrite unmount_eq.
  unfold settleImport. cbn. rewrite Hcall.
  destruct (importFn p call) as [module|err].
  - unfold onImportFulfilled. cbn. rewrite Hinst.
    by rewrite andb_false_r.
  - unfold onImportRejected. cbn. rewrite Hinst.
    rewrite orb_true_r. unfold handleOf, attemptsOf. cbn.
    rewrite lookup_alter_eq, Hinst. done.
Qed.

Lemma C2_witness :
  handleOf 0
    (settleImport failingLoader 0
       (unmount failingLoader (render failingLoader initialState)))
  = Some (rejected cancelError).
Proof.
  apply (C2_settlement_after_unmount failingLoader
           (render failingLoader initialState) 0%nat 0
           (mkInstance 0 false pending)).
  - vm_compute. reflexivity.
  - vm_compute. reflexivity.
Defined.

(** C2 as stated fails when the late outcome is a failure: the handle,
    pending at teardown, is settled as rejected. *)
Lemma C2_counterexample :
  imports (run failingLoader [Render; Unmount] initialState) !! 0%nat
    = Some 0 /\
  handleOf 0 (run failingLoader [Render; Unmount] initialState)
    = Some pending /\
  handleOf 0
    (run failingLoader [Render; Unmount; SettleImport 0%nat] initialState)
    = Some (rejected cancelError) /\
  handleOf 0
    (run failingLoader [Render; Unmount; SettleImport 0%nat] initialState)
    <> handleOf 0 (run failingLoader [Render; Unmount] initialState).
Proof. repeat split; vm_compute; congruence. Qed.

(** ** User callbacks *)

Lemma notCallback_onRetry e : isCallback e = false -> isOnRetry e = false.
Proof. unfold isCallback. by destruct (isOnRetry e). Qed.


Lemma handleReset_instances p s : instances (handleReset p s) = instances s.
Proof.
  unfold handleReset, retryLazyComponent, log.
  by destruct (verbose p), (onRetry p); rewrite clearAllTimers_eq.
Qed.

Lemma handleRetry_instances p s : instances (handleRetry p s) = instances s.
Proof.
  unfold handleRetry, resetErrorBoundary.
  destruct (boundaryError (handleReset p s)); cbn;
    by rewrite !handleReset_instances.
Qed.

Section Counting.

Context (p : Props) (f : Effect -> bool).
Context (Hf : forall e, isCallback e = false -> f e = false).

Lemma count_kept (c : nat) : Stable (fun s => count f (trace s) = c).
Proof. by apply count_stable. Qed.

Lemma count_silent_step ev s :
  silent ev = true -> count f (trace (step p ev s)) = count f (trace s).
Proof.
  intros Hev.
  by apply (stable_silent_step p _ (count_kept (count f (trace s))) ev s Hev).
Qed.

Lemma count_handleError err stack s :
  count f (trace (handleError p err stack s)) =
  (count f (trace s) +
   if onError p then (if f (EOnError err stack) then 1 else 0) else 0)%nat.
Proof.
  unfold handleError.
  pose proof (stable_log p _ (count_kept (count f (trace s))) LError
                (LogComponentStack stack) _
                (stable_log p _ (count_kept (count f (trace s))) LError
                   (LogLazyLoadError err) s eq_refl)) as H.
  cbn beta in H. destruct (onError p); [|lia].
  rewrite count_emit, H. done.
Qed.

Lemma count_capture err stack s :
  count f (trace (capture p err stack s)) =
  (count f (trace s) +
   if onError p then (if f (EOnError err stack) then 1 else 0) else 0)%nat.
Proof. unfold capture. by rewrite count_handleError. Qed.

Lemma count_handleReset s :
  count f (trace (handleReset p s)) =
  (count f (trace s) +
   if onRetry p then (if f EOnRetry then 1 else 0) else 0)%nat.
Proof.
  unfold handleReset. cbv zeta.
  set (s2 := retryLazyComponent p (log p LInfo LogRetryingLoading s)).
  assert (count f (trace s2) = count f (trace s)) as H2.
  { apply (stable_retryLazyComponent p _ (count_kept (count f (trace s)))).
    by apply (stable_log p _ (count_kept (count f (trace s)))). }
  assert (count f
            (trace (setMountKey (mountKey s2 + 1)
                      (log p LInfo (LogRemounting (mountKey s2 + 1))
                         (emit (ESetMountKey (mountKey s2 + 1)) s2))))
          = count f (trace s)) as H3.
  { apply (st_mountKey _ (count_kept (count f (trace s)))).
    apply (stable_log p _ (count_kept (count f (trace s)))).
    by apply (st_emit _ (count_kept (count f (trace s)))). }
  destruct (onRetry p); [|lia]. by rewrite count_emit, H3.
Qed.

Lemma count_handleRetry s :
  count f (trace (handleRetry p s)) =
  (count f (trace s) +
   if onRetry p
   then (if f EOnRetry then 1 else 0) *
        (match boundaryError s with Some _ => 2 | None => 1 end)
   else 0)%nat.
Proof.
  unfold handleRetry, resetErrorBoundary.
  assert (boundaryError (handleReset p s) = boundaryError s) as ->.
  { unfold handleReset, retryLazyComponent, log.
    by destruct (verbose p), (onRetry p); rewrite clearAllTimers_eq. }
  destruct (boundaryError s).
  - change (trace (setBoundaryError None ?x)) with (trace x).
    rewrite !count_handleReset. destruct (onRetry p); lia.
  - rewrite count_handleReset. destruct (onRetry p); lia.
Qed.

End Counting.

(** ** Failures that reach the boundary *)

Lemma memoLazyComponent_frame p s :
  isMountedRef (memoLazyComponent p s) = isMountedRef s /\
  boundaryError (memoLazyComponent p s) = boundaryError s /\
  retryKey (memoLazyComponent p s) = retryKey s /\
  instances (memoLazyComponent p s) = instances s.
Proof.
  unfold memoLazyComponent, log.
  destruct (decide _); [done|]. by destruct (verbose p).
Qed.

Lemma commitRetryKeyEffect_boundary previous s :
  boundaryError (commitRetryKeyEffect previous s) = boundaryError s.
Proof.
  unfold commitRetryKeyEffect. destruct previous as [k|]; [|done].
  destruct (decide _); [done | by rewrite clearAllTimers_eq].
Qed.

Lemma tryImport_boundary gen s :
  boundaryError (tryImport gen s) = boundaryError s.
Proof.
  unfold tryImport. destruct (instances s !! gen) as [inst|]; [|done].
  by destruct (_ || _).
Qed.

Lemma capture_boundary p err stack s :
  boundaryError (capture p err stack s) = Some err.
Proof.
  unfold capture, handleError, log.
  by destruct (verbose p), (onError p).
Qed.

(** The children the host renders in state [s], by what [raised]
    says. *)
Lemma renderChildren_raised p s :
  isMountedRef s = true ->
  renderChildren p s =
  match raised s with
  | Some err => capture p err lazyStack s
  | None =>
      match boundaryError s, instances s !! retryKey s with
      | None, None => executor (retryKey s) s
      | _, _ => s
      end
  end.
Proof.
  intros Hm. unfold renderChildren, raised, handleOf. rewrite Hm.
  destruct (boundaryError s); [done|].
  destruct (instances s !! retryKey s) as [inst|]; [|done].
  cbn. by destruct (handle inst).
Qed.

Lemma raised_memoLazyComponent p s : raised (memoLazyComponent p s) = raised s.
Proof.
  destruct (memoLazyComponent_frame p s) as (E1 & E2 & E3 & E4).
  unfold raised, handleOf. by rewrite E1, E2, E3, E4.
Qed.

Lemma render_boundary p s :
  boundaryError (render p s) =
  match raised s with Some err => Some err | None => boundaryError s end.
Proof.
  unfold render. destruct (isMountedRef s) eqn:Hm; cbn [negb].
  - change (boundaryError (setRenderedKey ?k ?x)) with (boundaryError x).
    destruct (memoLazyComponent_frame p s) as (E1 & E2 & E3 & E4).
    rewrite commitRetryKeyEffect_boundary, renderChildren_raised
      by by rewrite E1.
    rewrite raised_memoLazyComponent.
    destruct (raised s) as [err|]; [apply capture_boundary|].
    rewrite E2, E3, E4.
    destruct (boundaryError s) eqn:Hb; [by rewrite E2|].
    destruct (instances s !! retryKey s); [by rewrite E2|].
    unfold executor. rewrite tryImport_boundary. exact E2.
  - unfold raised. by rewrite Hm.
Qed.


Section CountingRenders.

Context (p : Props) (f : Effect -> bool).
Context (Hf : forall e, isCallback e = false -> f e = false).

Lemma count_render s :
  count f (trace (render p s)) =
  (count f (trace s) +
   match raised s with
   | Some err =>
       if onError p then (if f (EOnError err lazyStack) then 1 else 0) else 0
   | None => 0
   end)%nat.
Proof.
  pose proof (count_kept f Hf) as K.
  unfold render. destruct (isMountedRef s) eqn:Hm; cbn [negb].
  - set (s1 := memoLazyComponent p s).
    assert (count f (trace s1) = count f (trace s)) as H1
      by by apply (stable_memoLazyComponent p _ (K (count f (trace s)))).
    assert (isMountedRef s1 = true) as Hm1.
    { destruct (memoLazyComponent_frame p s) as (E & _). by rewrite <- Hm. }
    set (s2 := renderChildren p s1).
    assert (count f (trace (setRenderedKey (Some (retryKey s))
                              (commitRetryKeyEffect (renderedKey s) s2)))
            = count f (trace s2)) as H3.
    { apply (st_renderedKey _ (K (count f (trace s2)))).
      by apply (stable_commitRetryKeyEffect _ (K (count f (trace s2)))). }
    rewrite H3. unfold s2. rewrite renderChildren_raised by done.
    unfold s1 at 1. rewrite raised_memoLazyComponent.
    destruct (raised s) as [err|].
    + by rewrite (count_capture p f Hf), H1.
    + rewrite Nat.add_0_r, <- H1.
      destruct (boundaryError s1); [done|].
      destruct (instances s1 !! retryKey s1) eqn:Hi; [done|].
      by apply (stable_executor _ (K (count f (trace s1)))).
  - unfold raised. rewrite Hm. lia.
Qed.

End CountingRenders.

Ltac unfold_handlers :=
  unfold settleImport, onImportFulfilled, onImportRejected, fireTimer,
    tryImport, rejectHandle, resolveHandle, updateHandle, createSafeTimeout,
    capture, handleError, executor, log.

Ltac split_cases :=
  repeat match goal with
  | |- context [match ?x with _ => _ end] =>
      lazymatch x with
      | context [match _ with _ => _ end] => fail
      | _ => destruct x
      end
  end.













(** C3 at the failing input.  No event ever sets
    [currentAttemptCancelled].  After a reset during the import of
    generation 2 and the render that follows, the timers are cleared
    and generation 3 runs with [attempts = 0], but generation 2 is not
    cancelled: when its import fails afterwards it counts the attempt,
    logs it, schedules a retry after 1000 and, once that timer fires,
    calls the loader again.  Had the function returned by the executor
    been run at the reset, the late failure would have counted nothing
    and scheduled nothing. *)
Theorem C3_rekey_does_not_cancel :
  (forall p evs, flagsClear (run p evs initialState)) /\
  (retryKey retriedOnce = 2 /\
   imports retriedOnce !! 2%nat = Some 2 /\
   handleOf 2 retriedOnce = Some pending) /\
  (retryKey rekeyed = 3 /\
   timersRef rekeyed = ∅ /\
   attemptsOf 3 rekeyed = Some 0 /\
   handleOf 3 rekeyed = Some pending /\
   currentAttemptCancelled <$> instances rekeyed !! 2 = Some false /\
   imports rekeyed !! 2%nat = Some 2) /\
  (attemptsOf 2 lateFailure = Some 1 /\
   timeouts lateFailure !! 1%nat = Some (2, 1000) /\
   trace lateFailure =
     trace rekeyed ++
     [ELog LInfo (LogAttemptFailed 1 2 "load failed");
      ELog LInfo (LogRetryingIn 1000); ESetTimeout 1 1000] /\
   trace (fireTimer 1 lateFailure) = trace lateFailure ++ [EImport 2 4]) /\
  (timeouts (settleImport twoTries 2 (cancelAttempt 2 rekeyed)) = ∅ /\
   attemptsOf 2 (settleImport twoTries 2 (cancelAttempt 2 rekeyed)) = Some 0).
Proof.
  split.
  - intros p evs.
    apply (stable_run p _ evs _ flagsClear_stable); [done | done |].
    intros gen inst. cbn. by rewrite lookup_empty.
  - by vm_compute.
Qed.

(** C4 at the failing input.  [handleReset] calls [onRetry] once per
    call, and imports settling or timers firing never call it.  But
    the reset trigger handed to the error view, [handleRetry], runs
    [handleReset] and then the boundary's [resetErrorBoundary], which
    runs [handleReset] again through [onReset]: one use of the trigger
    while the error view is shown calls [onRetry] twice and advances
    both keys by 2.  Neither function creates a loader instance, and
    the render after the double reset starts a single one, for
    [retryKey = 2]; none exists for 1. *)
Theorem C4_one_retry_click_two_onRetry :
  (forall p s,
     count isOnRetry (trace (handleReset p s)) =
     (count isOnRetry (trace s) + if onRetry p then 1 else 0)%nat) /\
  (forall p s call timerId,
     count isOnRetry (trace (settleImport p call s)) =
       count isOnRetry (trace s) /\
     count isOnRetry (trace (fireTimer timerId s)) =
       count isOnRetry (trace s)) /\
  (forall p s,
     count isOnRetry (trace (handleRetry p s)) =
     (count isOnRetry (trace s) +
      if onRetry p
      then match boundaryError s with Some _ => 2 | None => 1 end
      else 0)%nat) /\
  ErrorFallback oneTry loadFailed =
    VElement (mkElement DefaultErrorComponent
                [("error"%string, PError loadFailed);
                 ("resetErrorBoundary"%string, PCallback handleRetryCb)]) /\
  boundaryError errorShown = Some loadFailed /\
  count isOnRetry (trace errorShown) = 0%nat /\
  count isOnRetry (trace (invoke oneTry handleRetryCb errorShown)) = 2%nat /\
  retryKey (invoke oneTry handleRetryCb errorShown) = retryKey errorShown + 2 /\
  mountKey (invoke oneTry handleRetryCb errorShown) = mountKey errorShown + 2 /\
  (forall p s,
     instances (handleReset p s) = instances s /\
     instances (handleRetry p s) = instances s) /\
  handleOf 2 (render oneTry (invoke oneTry handleRetryCb errorShown))
    = Some pending /\
  handleOf 1 (render oneTry (invoke oneTry handleRetryCb errorShown)) = None /\
  handleOf 0 (render oneTry (invoke oneTry handleRetryCb errorShown))
    = Some (rejected loadFailed).
Proof.
  assert (forall p s,
            instances (handleReset p s) = instances s /\
            instances (handleRetry p s) = instances s) as Hinst.
  { intros p s. split;
      [apply handleReset_instances | apply handleRetry_instances]. }
  split; [|split; [|split]].
  - intros p s. rewrite (count_handleReset p isOnRetry notCallback_onRetry).
    by destruct (onRetry p).
  - intros p s call timerId. split.
    + by apply (count_silent_step p isOnRetry notCallback_onRetry
                  (SettleImport call)).
    + by apply (count_silent_step p isOnRetry notCallback_onRetry
                  (FireTimer timerId)).
  - intros p s. rewrite (count_handleRetry p isOnRetry notCallback_onRetry).
    destruct (onRetry p), (boundaryError s); cbn; lia.
  - do 6 (split; [by vm_compute|]). split; [done|]. by vm_compute.
Qed.

(** ** Manual reset *)

Lemma executor_attempts gen s : attemptsOf gen (executor gen s) = Some 0.
Proof.
  unfold executor, tryImport, attemptsOf. cbn. rewrite lookup_insert_eq.
  destruct (_ || _); cbn; [|by rewrite lookup_insert_eq].
  by rewrite lookup_alter_eq, lookup_insert_eq.
Qed.

(** C5, as the code has it.  Leaving the diagnostic lines aside, one
    call of [handleReset] does, in this order: clear every timer of
    [timersRef], set [retryKey] to its successor, set [mountKey] to its
    successor, call [onRetry] (when configured).  Afterwards
    [timersRef] is empty, none of its former ids is scheduled, both
    keys have advanced by exactly 1, and no loader instance has been
    touched: the attempt counter is not reset by the reset itself, it
    is the instance that the promise executor creates later that
    starts at [attempts = 0]. *)
Theorem C5_handleReset_order p s gen s' :
  withoutLogs (trace (handleReset p s)) =
    withoutLogs (trace s) ++
    map EClearTimeout (elements (timersRef s)) ++
    [ESetRetryKey (retryKey s + 1); ESetMountKey (mountKey s + 1)] ++
    (if onRetry p then [EOnRetry] else []) /\
  timersRef (handleReset p s) = ∅ /\
  Forall (fun id => timeouts (handleReset p s) !! id = None)
    (elements (timersRef s)) /\
  retryKey (handleReset p s) = retryKey s + 1 /\
  mountKey (handleReset p s) = mountKey s + 1 /\
  instances (handleReset p s) = instances s /\
  attemptsOf gen (executor gen s') = Some 0.
Proof.
  split; [|split; [|split; [|split; [|split; [|split]]]]].
  - unfold handleReset, retryLazyComponent. cbv zeta.
    set (s2 := log p LInfo LogForcing (log p LInfo LogRetryingLoading s)).
    assert (withoutLogs (trace s2) = withoutLogs (trace s) /\
            timersRef s2 = timersRef s /\
            retryKey s2 = retryKey s /\ mountKey s2 = mountKey s)
      as (Ht & Hr & Hk & Hm).
    { unfold s2, log. destruct (verbose p); cbn; [|done].
      by rewrite !withoutLogs_app, !app_nil_r. }
    clearbody s2. rewrite clearAllTimers_eq. unfold log.
    destruct (verbose p), (onRetry p);
      cbn [trace emit setMountKey setRetryKey mountKey retryKey timersRef];
      rewrite !withoutLogs_app, ?withoutLogs_clear, Ht, ?Hr, ?Hk, ?Hm;
      cbn [withoutLogs]; rewrite <- ?app_assoc; cbn [app]; reflexivity.
  - unfold handleReset, retryLazyComponent, log.
    by destruct (verbose p), (onRetry p); rewrite clearAllTimers_eq.
  - apply Forall_forall. intros id Hid.
    assert (timeouts (handleReset p s)
            = deleteAll (elements (timersRef s)) (timeouts s)) as ->.
    { unfold handleReset, retryLazyComponent, log.
      by destruct (verbose p), (onRetry p); rewrite clearAllTimers_eq. }
    rewrite deleteAll_lookup.
    destruct (decide (id ∈ elements (timersRef s))) as [?|Hn]; [done|].
    by destruct Hn.
  - unfold handleReset, retryLazyComponent, log.
    by destruct (verbose p), (onRetry p); rewrite clearAllTimers_eq.
  - unfold handleReset, retryLazyComponent, log.
    by destruct (verbose p), (onRetry p); rewrite clearAllTimers_eq.
  - apply handleReset_instances.
  - apply executor_attempts.
Qed.

(** C5 as stated fails: after a reset of the state in which the only
    attempt has failed, both keys have advanced and [onRetry] has been
    called, yet the only attempt counter there is still reads 1. *)
Lemma C5_counterexample :
  instances (handleReset oneTry errorShown)
    = {[0 := mkInstance 1 false (rejected loadFailed)]} /\
  retryKey (handleReset oneTry errorShown) = retryKey errorShown + 1 /\
  mountKey (handleReset oneTry errorShown) = mountKey errorShown + 1 /\
  count isOnRetry (trace (handleReset oneTry errorShown)) = 1%nat /\
  attemptsOf 0 (handleReset oneTry errorShown) = Some 1 /\
  (forall gen, attemptsOf gen (handleReset oneTry errorShown) <> Some 0).
Proof.
  assert (instances (handleReset oneTry errorShown)
          = {[0 := mkInstance 1 false (rejected loadFailed)]}) as Hinst
    by (by vm_compute).
  split; [done|].
  do 4 (split; [by vm_compute|]).
  intros gen. unfold attemptsOf. rewrite Hinst.
  destruct (decide (gen = 0)) as [->|Hne].
  - by rewrite lookup_singleton_eq.
  - by rewrite lookup_singleton_ne.
Qed.

(** ** Fallback views *)

Lemma getProp_setProp k v ps : getProp k (setProp k v ps) = Some v.
Proof.
  induction ps as [|[k' v'] ps IH]; cbn.
  - by rewrite String.eqb_refl.
  - destruct (String.eqb k k') eqn:Hk; cbn; rewrite ?String.eqb_refl; [done|].
    by rewrite Hk.
Qed.

Lemma getProp_setProp_ne k k' v ps :
  k <> k' -> getProp k (setProp k' v ps) = getProp k ps.
Proof.
  intros Hne. induction ps as [|[k'' v''] ps IH]; cbn.
  - by rewrite (proj2 (String.eqb_neq k k')).
  - destruct (String.eqb k' k'') eqn:Hk; cbn.
    + apply String.eqb_eq in Hk as <-.
      by rewrite (proj2 (String.eqb_neq k k')).
    + by rewrite IH.
Qed.

(** C8, as the code has it.  Both resolutions dispatch on the shape of
    the override.  Loading view: unset gives the built-in
    [DefaultLoadingAnimation], an element is returned as it is, a
    component function becomes an element of that component with no
    props.  Error view: unset gives the built-in
    [DefaultErrorComponent] and a component function an element of
    that component, both with exactly the props [error] and
    [resetErrorBoundary]; an element is not shown as it is but cloned
    with these two props written over its own, its type and its other
    props kept.  The [resetErrorBoundary] prop is [handleRetry], which
    runs [handleReset] first. *)
Theorem C8_fallback_views p err e k s :
  match loadingComponent p with
  | Unset =>
      renderLoadingComponent p = VElement (mkElement DefaultLoadingAnimation [])
  | IsElement e' => renderLoadingComponent p = VElement e'
  | IsFunction c' => renderLoadingComponent p = VElement (mkElement c' [])
  | OtherValue v => renderLoadingComponent p = VRaw v
  end /\
  match errorComponent p with
  | Unset =>
      ErrorFallback p err =
      VElement (mkElement DefaultErrorComponent
                  [("error"%string, PError err);
                   ("resetErrorBoundary"%string, PCallback handleRetryCb)])
  | IsElement e' =>
      exists shown,
        ErrorFallback p err = VElement shown /\
        etype shown = etype e' /\
        getProp "error" (eprops shown) = Some (PError err) /\
        getProp "resetErrorBoundary" (eprops shown)
          = Some (PCallback handleRetryCb)
  | IsFunction c' =>
      ErrorFallback p err =
      VElement (mkElement c'
                  [("error"%string, PError err);
                   ("resetErrorBoundary"%string, PCallback handleRetryCb)])
  | OtherValue v => ErrorFallback p err = VRaw v
  end /\
  (let shown := cloneElement e (retryProps err) in
   if String.eqb k "error" || String.eqb k "resetErrorBoundary"
   then True
   else getProp k (eprops shown) = getProp k (eprops e)) /\
  invoke p handleRetryCb s = resetErrorBoundary p (handleReset p s).
Proof.
  split; [|split; [|split]].
  - unfold renderLoadingComponent. by destruct (loadingComponent p).
  - unfold ErrorFallback. destruct (errorComponent p) as [|e'| |]; try done.
    eexists. split; [done|]. cbn. split; [done|]. split.
    + rewrite getProp_setProp_ne by done. apply getProp_setProp.
    + apply getProp_setProp.
  - cbn. destruct (String.eqb k "error") eqn:H1; [done|].
    destruct (String.eqb k "resetErrorBoundary") eqn:H2; [done|]. cbn.
    apply String.eqb_neq in H1, H2.
    by rewrite !getProp_setProp_ne.
  - done.
Qed.

(** C8 as stated fails for a pre-built error view: it is not shown as
    it is, its [error] prop is replaced and a reset trigger is added. *)
Lemma C8_counterexample :
  errorComponent customViewProps = IsElement customView /\
  ErrorFallback customViewProps loadFailed =
    VElement (mkElement (UserComponent "Oops")
                [("error"%string, PError loadFailed);
                 ("resetErrorBoundary"%string, PCallback handleRetryCb)]) /\
  ErrorFallback customViewProps loadFailed <> VElement customView /\
  renderLoadingComponent customViewProps = VElement customView.
Proof. repeat split; try (by vm_compute). Qed.

(** * Further properties *)

(** ** The timer registry, exactly *)

Lemma Tracked_stable : Stable Tracked.
Proof.
  split; try done; unfold Tracked.
  - intros g d s H id. unfold createSafeTimeout.
    destruct (isMountedRef s); cbn; [|by apply H].
    rewrite lookup_insert_is_Some, elem_of_union, elem_of_singleton.
    intros [<-|[_ Hs]]; [by left | right; by apply H].
  - intros s H id. rewrite clearAllTimers_eq. cbn.
    rewrite deleteAll_lookup.
    destruct (decide (id ∈ elements (timersRef s))) as [?|Hn];
      [by intros [? ?]|].
    intros Hs. destruct Hn. apply elem_of_elements. by apply H.
  - intros id s H id'. cbn.
    rewrite lookup_delete_is_Some, elem_of_difference, elem_of_singleton.
    intros [Hne Hs]. split; [by apply H | congruence].
Qed.

Lemma Tracked_initial : Tracked initialState.
Proof. intros id. cbn. rewrite lookup_empty. by intros [? ?]. Qed.

Lemma Tracked_run p evs : Tracked (run p evs initialState).
Proof.
  apply (stable_run p _ evs _ Tracked_stable); [done | done |].
  apply Tracked_initial.
Qed.

Lemma Tracked_cleared s : Tracked s -> timeouts (clearAllTimers s) = ∅.
Proof.
  intros H. apply map_eq. intros id. rewrite lookup_empty.
  rewrite clearAllTimers_eq. cbn. rewrite deleteAll_lookup.
  destruct (decide (id ∈ elements (timersRef s))) as [?|Hn]; [done|].
  destruct (timeouts s !! id) eqn:Hl; [|done].
  destruct Hn. apply elem_of_elements. apply H. by rewrite Hl.
Qed.

Lemma deleteAll_nil (m : gmap nat (Z * Z)) : deleteAll [] m = m.
Proof. done. Qed.

Lemma unmount_timeouts p s : timeouts (unmount p s) = timeouts (clearAllTimers s).
Proof. by rewrite unmount_eq, clearAllTimers_eq. Qed.

Lemma handleReset_timeouts p s :
  timeouts (handleReset p s) = timeouts (clearAllTimers s).
Proof.
  unfold handleReset, retryLazyComponent, log.
  by destruct (verbose p), (onRetry p); rewrite !clearAllTimers_eq.
Qed.

Lemma handleReset_timersRef p s : timersRef (handleReset p s) = ∅.
Proof.
  unfold handleReset, retryLazyComponent, log.
  by destruct (verbose p), (onRetry p); rewrite !clearAllTimers_eq.
Qed.

Lemma handleReset_keys p s :
  retryKey (handleReset p s) = retryKey s + 1 /\
  mountKey (handleReset p s) = mountKey s + 1.
Proof.
  unfold handleReset, retryLazyComponent, log.
  by destruct (verbose p), (onRetry p); rewrite !clearAllTimers_eq.
Qed.

Lemma handleReset_frame p s :
  isMountedRef (handleReset p s) = isMountedRef s /\
  imports (handleReset p s) = imports s /\
  calls (handleReset p s) = calls s /\
  nextTimerId (handleReset p s) = nextTimerId s /\
  boundaryError (handleReset p s) = boundaryError s /\
  renderedKey (handleReset p s) = renderedKey s.
Proof.
  unfold handleReset, retryLazyComponent, log.
  by destruct (verbose p), (onRetry p); rewrite !clearAllTimers_eq.
Qed.

(** X1.  The registry is exact.  In every state the component can
    reach, the host holds a timeout exactly when its id is in
    [timersRef]; hence [clearAllTimers], the unmount cleanup and
    [handleReset] leave the host without any timeout of this
    component, and after [handleReset] no timer runs its callback. *)
Theorem X1_timer_registry_exact p evs id :
  let s := run p evs initialState in
  (is_Some (timeouts s !! id) <-> id ∈ timersRef s) /\
  timeouts (clearAllTimers s) = ∅ /\
  timeouts (unmount p s) = ∅ /\
  timeouts (handleReset p s) = ∅ /\
  fireTimer id (handleReset p s) = handleReset p s.
Proof.
  intros s.
  pose proof (Tracked_run p evs) as Ht. fold s in Ht.
  assert (TimerInv s) as [Hi _].
  { apply (stable_run p _ evs _ TimerInv_stable); [done | done |].
    apply TimerInv_initial. }
  split; [split; [apply Ht | apply Hi]|].
  rewrite unmount_timeouts, handleReset_timeouts.
  split; [by apply Tracked_cleared|]. split; [by apply Tracked_cleared|].
  split; [by apply Tracked_cleared|].
  unfold fireTimer. rewrite handleReset_timeouts, Tracked_cleared by done.
  by rewrite lookup_empty.
Qed.

(** ** After the unmount *)

Lemma Dead_unmount p s : Tracked s -> Dead (unmount p s).
Proof.
  intros Ht. split; [by rewrite unmount_eq|].
  split; [rewrite unmount_timeouts; by apply Tracked_cleared|].
  by rewrite unmount_eq.
Qed.

Lemma deleteAll_empty l : deleteAll l ∅ = ∅.
Proof.
  unfold deleteAll. induction l as [|a l IH]; cbn [foldl]; [done|].
  by rewrite delete_empty.
Qed.

Lemma delays_clear l : delays (map EClearTimeout l) = [].
Proof. induction l as [|a l IH]; [done | exact IH]. Qed.

Lemma handleReset_trace p s :
  trace (handleReset p s) =
  trace s ++
  (if verbose p
   then [ELog LInfo LogRetryingLoading; ELog LInfo LogForcing] else []) ++
  map EClearTimeout (elements (timersRef s)) ++
  [ESetRetryKey (retryKey s + 1); ESetMountKey (mountKey s + 1)] ++
  (if verbose p then [ELog LInfo (LogRemounting (mountKey s + 1))] else []) ++
  (if onRetry p then [EOnRetry] else []).
Proof.
  unfold handleReset, retryLazyComponent, log.
  destruct (verbose p), (onRetry p); rewrite clearAllTimers_eq;
    cbn [trace emit setMountKey setRetryKey mountKey retryKey timersRef];
    rewrite <- ?app_assoc; reflexivity.
Qed.

Lemma handleReset_quiet p s :
  delays (trace (handleReset p s)) = delays (trace s) /\
  count isImport (trace (handleReset p s)) = count isImport (trace s).
Proof.
  rewrite handleReset_trace, !delays_app, !count_app, delays_clear.
  rewrite count_clear by done.
  destruct (verbose p), (onRetry p); cbn [delays count isImport app];
    rewrite ?app_nil_r; split; first [reflexivity | lia].
Qed.

Lemma Inert_refl s : Inert s s.
Proof. by repeat split. Qed.

Lemma Inert_trans s1 s2 s3 : Inert s1 s2 -> Inert s2 s3 -> Inert s1 s3.
Proof.
  intros (A1 & A2 & A3 & A4 & A5) (B1 & B2 & B3 & B4 & B5).
  repeat split; first [congruence | intros gen; by rewrite B3].
Qed.

Lemma Dead_settleImport p call s :
  Dead s -> Dead (settleImport p call s) /\ Inert s (settleImport p call s).
Proof.
  intros Hd. pose proof Hd as (Hm & Ht & Hr). unfold settleImport.
  destruct (imports s !! call) as [gen|]; [|split; [exact Hd | exact (Inert_refl s)]].
  destruct (importFn p call) as [m|err].
  - unfold onImportFulfilled. cbn [instances setImports isMountedRef].
    destruct (instances s !! gen) as [inst|];
      rewrite ?Hm, ?andb_false_r; (split; [exact Hd | exact (Inert_refl s)]).
  - unfold onImportRejected. cbn [instances setImports isMountedRef].
    destruct (instances s !! gen) as [inst|] eqn:Hg;
      [|split; [exact Hd | exact (Inert_refl s)]].
    rewrite Hm, orb_true_r. split; [done|].
    unfold Inert, rejectHandle, updateHandle, attemptsOf.
    cbn [calls nextTimerId instances trace emit setInstances setImports].
    rewrite delays_app, count_app. cbn [delays count isImport].
    rewrite app_nil_r. repeat split; try lia.
    intros g. rewrite lookup_alter.
    destruct (decide (gen = g)) as [->|?]; [|done]. by rewrite Hg.
Qed.

Lemma Dead_capture p err stack s :
  Dead s -> Dead (capture p err stack s) /\ Inert s (capture p err stack s).
Proof.
  intros Hd. unfold capture, handleError, log.
  destruct (verbose p), (onError p); (split; [done|]);
    unfold Inert, attemptsOf;
    cbn [calls nextTimerId instances trace emit setBoundaryError];
    rewrite ?delays_app, ?count_app; cbn [delays count isImport];
    rewrite ?app_nil_r; repeat split; lia.
Qed.

Lemma Dead_handleReset p s :
  Dead s -> Dead (handleReset p s) /\ Inert s (handleReset p s).
Proof.
  intros (Hm & Ht & Hr).
  destruct (handleReset_frame p s) as (F1 & F2 & F3 & F4 & F5 & F6).
  destruct (handleReset_quiet p s) as [Q1 Q2].
  split.
  - split; [by rewrite F1|]. split; [|apply handleReset_timersRef].
    rewrite handleReset_timeouts, clearAllTimers_eq.
    cbn [timeouts]. rewrite Ht. apply deleteAll_empty.
  - repeat split; try done. intros gen. unfold attemptsOf.
    by rewrite handleReset_instances.
Qed.

Lemma Dead_handleRetry p s :
  Dead s -> Dead (handleRetry p s) /\ Inert s (handleRetry p s).
Proof.
  intros Hd. unfold handleRetry, resetErrorBoundary.
  destruct (Dead_handleReset p s Hd) as [Hd1 Hi1].
  destruct (boundaryError (handleReset p s)); [|done].
  destruct (Dead_handleReset p _ Hd1) as [Hd2 Hi2].
  split; [done|]. by apply (Inert_trans _ _ _ Hi1).
Qed.

Lemma Dead_again p s : Dead s -> Dead (unmount p s) /\ Inert s (unmount p s).
Proof.
  intros (Hm & Ht & Hr). rewrite unmount_eq. split.
  - split; [done|]. split; [|done]. cbn [timeouts]. rewrite Ht.
    apply deleteAll_empty.
  - unfold Inert, attemptsOf. cbn [calls nextTimerId instances trace].
    rewrite !delays_app, !count_app, delays_clear, count_clear by done.
    destruct (verbose p); cbn [delays count isImport app];
      rewrite ?app_nil_r; repeat split; lia.
Qed.

Lemma Dead_step p ev s :
  Dead s -> Dead (step p ev s) /\ Inert s (step p ev s).
Proof.
  intros Hd. destruct ev; cbn [step].
  - unfold render. pose proof Hd as (Hm & _). rewrite Hm. cbn [negb].
    split; [done | apply Inert_refl].
  - by apply Dead_settleImport.
  - unfold fireTimer. destruct Hd as (Hm & Ht & Hr).
    rewrite Ht, lookup_empty. split; [done | apply Inert_refl].
  - by apply Dead_capture.
  - by apply Dead_handleReset.
  - by apply Dead_handleRetry.
  - by apply Dead_again.
Qed.

Lemma Dead_run p evs s :
  Dead s -> Dead (run p evs s) /\ Inert s (run p evs s).
Proof.
  revert s. induction evs as [|ev evs IH]; intros s Hd.
  - split; [done | apply Inert_refl].
  - destruct (Dead_step p ev s Hd) as [Hd1 Hi1].
    destruct (IH _ Hd1) as [Hd2 Hi2].
    split; [done|]. by apply (Inert_trans _ _ _ Hi1).
Qed.

(** X2.  Nothing runs after the unmount.  Once the cleanup of the mount
    effect has run, whatever events follow (late settlements, renders,
    captures, resets, a second unmount), [isMountedRef] stays false, no
    timeout is scheduled, the loader is not called again and no failed
    attempt is counted. *)
Theorem X2_inert_after_unmount p evs evs' gen :
  let s0 := unmount p (run p evs initialState) in
  let s1 := run p evs' s0 in
  isMountedRef s1 = false /\
  timeouts s1 = ∅ /\
  calls s1 = calls s0 /\
  count isImport (trace s1) = count isImport (trace s0) /\
  delays (trace s1) = delays (trace s0) /\
  attemptsOf gen s1 = attemptsOf gen s0.
Proof.
  intros s0 s1.
  assert (Dead s0) as Hd by apply Dead_unmount, Tracked_run.
  destruct (Dead_run p evs' s0 Hd) as [(Hm & Ht & _) (I1 & I2 & I3 & I4 & I5)].
  repeat split; first [done | apply I3].
Qed.

(** ** Console lines *)

Section LogFree.

Context (p : Props) (Hv : verbose p = false).

Lemma logs_emit e s : isLog e = false -> logs (emit e s) = logs s.
Proof.
  intros He. unfold logs. cbn [trace emit]. rewrite count_app.
  cbn [count]. rewrite He. lia.
Qed.

Lemma log_off level line s : log p level line s = s.
Proof. unfold log. by rewrite Hv. Qed.

Lemma logs_clearAllTimers s : logs (clearAllTimers s) = logs s.
Proof.
  unfold logs. rewrite clearAllTimers_eq. cbn [trace].
  rewrite count_app, count_clear by done. lia.
Qed.

Lemma logs_createSafeTimeout gen delay s :
  logs (createSafeTimeout gen delay s) = logs s.
Proof.
  unfold createSafeTimeout. destruct (isMountedRef s); cbn [negb]; [|done].
  unfold logs. cbn [trace emit setTimers setNextTimerId setTimeouts].
  rewrite count_app. cbn [count isLog]. lia.
Qed.

Lemma logs_rejectHandle gen err s : logs (rejectHandle gen err s) = logs s.
Proof. unfold rejectHandle. by rewrite logs_emit. Qed.

Lemma logs_resolveHandle gen m s : logs (resolveHandle gen m s) = logs s.
Proof. unfold resolveHandle. by rewrite logs_emit. Qed.

Lemma logs_tryImport gen s : logs (tryImport gen s) = logs s.
Proof.
  unfold tryImport. destruct (instances s !! gen) as [inst|]; [|done].
  destruct (_ || _); [apply logs_rejectHandle|]. by rewrite logs_emit.
Qed.

Lemma logs_settleImport call s : logs (settleImport p call s) = logs s.
Proof.
  unfold settleImport. destruct (imports s !! call) as [gen|]; [|done].
  destruct (importFn p call) as [m|err].
  - unfold onImportFulfilled. cbn [instances setImports].
    destruct (instances s !! gen) as [inst|]; [|done].
    destruct (_ && _); [by rewrite logs_resolveHandle | done].
  - unfold onImportRejected. cbn [instances setImports].
    destruct (instances s !! gen) as [inst|]; [|done].
    destruct (_ || _); [by rewrite logs_rejectHandle|].
    destruct err as [|err]; [by rewrite logs_emit|].
    rewrite !log_off.
    destruct (_ >=? _);
      [by rewrite logs_rejectHandle | by rewrite logs_createSafeTimeout].
Qed.

Lemma logs_fireTimer timerId s : logs (fireTimer timerId s) = logs s.
Proof.
  unfold fireTimer. destruct (timeouts s !! timerId) as [[gen d]|]; [|done].
  cbn [isMountedRef setTimers setTimeouts].
  destruct (isMountedRef s); [by rewrite logs_tryImport | done].
Qed.

Lemma logs_memoLazyComponent s : logs (memoLazyComponent p s) = logs s.
Proof.
  unfold memoLazyComponent. destruct (decide _) as [?|?]; [done|].
  by rewrite log_off.
Qed.

Lemma logs_capture err stack s : logs (capture p err stack s) = logs s.
Proof.
  unfold capture, handleError. rewrite !log_off.
  destruct (onError p); [by rewrite logs_emit | done].
Qed.

Lemma logs_renderChildren s : logs (renderChildren p s) = logs s.
Proof.
  unfold renderChildren, executor.
  destruct (boundaryError s); [done|].
  destruct (instances s !! retryKey s) as [inst|];
    [|by rewrite logs_tryImport].
  destruct (handle inst); try done. apply logs_capture.
Qed.

Lemma logs_commitRetryKeyEffect previous s :
  logs (commitRetryKeyEffect previous s) = logs s.
Proof.
  unfold commitRetryKeyEffect. destruct previous as [k|]; [|done].
  destruct (decide _) as [?|?]; [done | apply logs_clearAllTimers].
Qed.

Lemma logs_render s : logs (render p s) = logs s.
Proof.
  unfold render. destruct (negb _); [done|].
  change (logs (setRenderedKey ?k ?x)) with (logs x).
  by rewrite logs_commitRetryKeyEffect, logs_renderChildren,
    logs_memoLazyComponent.
Qed.

Lemma logs_handleReset s : logs (handleReset p s) = logs s.
Proof.
  unfold logs. rewrite handleReset_trace, Hv, !count_app.
  rewrite count_clear by done.
  destruct (onRetry p); cbn [count isLog app]; lia.
Qed.

Lemma logs_handleRetry s : logs (handleRetry p s) = logs s.
Proof.
  unfold handleRetry, resetErrorBoundary.
  destruct (boundaryError _); [|apply logs_handleReset].
  change (logs (setBoundaryError ?k ?x)) with (logs x).
  by rewrite !logs_handleReset.
Qed.

Lemma logs_unmount s : logs (unmount p s) = logs s.
Proof.
  unfold unmount. rewrite log_off.
  change (logs (clearAllTimers (setMounted false s)))
    with (logs (clearAllTimers (setMounted false s))).
  rewrite logs_clearAllTimers. done.
Qed.

Lemma logs_step ev s : logs (step p ev s) = logs s.
Proof.
  destruct ev; cbn [step].
  - apply logs_render.
  - apply logs_settleImport.
  - apply logs_fireTimer.
  - apply logs_capture.
  - apply logs_handleReset.
  - apply logs_handleRetry.
  - apply logs_unmount.
Qed.

End LogFree.

(** X3.  Without [verbose], [log] never writes: no run makes the
    component write a console line, whatever the state it starts
    from. *)
Theorem X3_no_log_unless_verbose p evs s :
  verbose p = false ->
  count isLog (trace (run p evs s)) = count isLog (trace s).
Proof.
  intros Hv. revert s. induction evs as [|ev evs IH]; intros s; [done|].
  cbn [run foldl].
  change (foldl (fun acc ev0 => step p ev0 acc) (step p ev s) evs)
    with (run p evs (step p ev s)).
  rewrite IH. by apply logs_step.
Qed.

Lemma X3_witness :
  verbose oneTry = false /\
  count isLog
    (trace (run oneTry
              [Render; SettleImport 0%nat; Capture loadFailed "stack"; Retry;
               Render; Unmount] initialState)) = 0%nat.
Proof.
  split; [done|].
  by rewrite (X3_no_log_unless_verbose oneTry _ initialState eq_refl).
Defined.

(** ** The two keys *)

Lemma keys_tryImport gen s : keysOf (tryImport gen s) = keysOf s.
Proof. unfold_handlers. by split_cases. Qed.

Lemma keys_settleImport p call s : keysOf (settleImport p call s) = keysOf s.
Proof. unfold_handlers. by split_cases. Qed.

Lemma keys_fireTimer timerId s : keysOf (fireTimer timerId s) = keysOf s.
Proof. unfold_handlers. by split_cases. Qed.

Lemma keys_capture p err stack s : keysOf (capture p err stack s) = keysOf s.
Proof. unfold_handlers. by split_cases. Qed.

Lemma keys_unmount p s : keysOf (unmount p s) = keysOf s.
Proof. by rewrite unmount_eq. Qed.

Lemma keys_clearAllTimers s : keysOf (clearAllTimers s) = keysOf s.
Proof. by rewrite clearAllTimers_eq. Qed.

Lemma keys_render p s : keysOf (render p s) = keysOf s.
Proof.
  unfold render. destruct (negb _); [done|].
  change (keysOf (setRenderedKey ?k ?x)) with (keysOf x).
  assert (keysOf (memoLazyComponent p s) = keysOf s) as H1.
  { unfold memoLazyComponent, log. by split_cases. }
  assert (forall x, keysOf (renderChildren p x) = keysOf x) as H2.
  { intros x. unfold renderChildren, executor.
    destruct (boundaryError x); [done|].
    destruct (instances x !! retryKey x) as [inst|];
      [|by rewrite keys_tryImport].
    destruct (handle inst); try done. apply keys_capture. }
  assert (forall k x, keysOf (commitRetryKeyEffect k x) = keysOf x) as H3.
  { intros k x. unfold commitRetryKeyEffect. destruct k as [k|]; [|done].
    destruct (decide _) as [?|?]; [done | apply keys_clearAllTimers]. }
  by rewrite H3, H2, H1.
Qed.

Ltac split_cases_eq :=
  repeat match goal with
  | |- context [match ?x with _ => _ end] =>
      lazymatch x with
      | context [match _ with _ => _ end] => fail
      | _ => destruct x eqn:?
      end
  end.

Lemma is_Some_insert_same {A} (m : gmap Z A) g gen x y :
  m !! g = Some y -> is_Some (<[g := x]> m !! gen) <-> is_Some (m !! gen).
Proof.
  intros Hg. rewrite lookup_insert_is_Some. split.
  - intros [<-|[_ ?]]; [by rewrite Hg | done].
  - intros H. destruct (decide (g = gen)); [by left | by right].
Qed.

Ltac exists_tac :=
  unfold exists_; cbn;
  rewrite ?lookup_alter_is_Some;
  try done;
  try (erewrite is_Some_insert_same by eassumption; done).

Lemma exists_tryImport g gen s : exists_ gen (tryImport g s) <-> exists_ gen s.
Proof. unfold_handlers. split_cases_eq; exists_tac. Qed.

Lemma exists_settleImport p call gen s :
  exists_ gen (settleImport p call s) <-> exists_ gen s.
Proof. unfold_handlers. split_cases_eq; exists_tac. Qed.

Lemma exists_fireTimer timerId gen s :
  exists_ gen (fireTimer timerId s) <-> exists_ gen s.
Proof. unfold_handlers. split_cases_eq; exists_tac. Qed.

Lemma instances_capture p err stack s :
  instances (capture p err stack s) = instances s.
Proof. unfold_handlers. by split_cases. Qed.

Lemma instances_unmount p s : instances (unmount p s) = instances s.
Proof. by rewrite unmount_eq. Qed.

Lemma exists_render p gen s :
  exists_ gen (render p s) -> exists_ gen s \/ gen = retryKey s.
Proof.
  unfold render. destruct (negb _); [by left|].
  change (exists_ gen (setRenderedKey ?k ?x)) with (exists_ gen x).
  assert (forall k x, instances (commitRetryKeyEffect k x) = instances x) as H3.
  { intros k x. unfold commitRetryKeyEffect. destruct k as [k|]; [|done].
    destruct (decide _) as [?|?]; [done | by rewrite clearAllTimers_eq]. }
  unfold exists_ at 1. rewrite H3.
  fold (exists_ gen (renderChildren p (memoLazyComponent p s))).
  assert (instances (memoLazyComponent p s) = instances s /\
          boundaryError (memoLazyComponent p s) = boundaryError s /\
          retryKey (memoLazyComponent p s) = retryKey s) as (M1 & M2 & M3).
  { unfold memoLazyComponent, log. by split_cases. }
  unfold renderChildren, executor. rewrite M1, M2, M3.
  destruct (boundaryError s); [unfold exists_ at 1; rewrite M1; by left|].
  destruct (instances s !! retryKey s) as [inst|].
  { destruct (handle inst); unfold exists_ at 1;
      rewrite ?instances_capture, M1; by left. }
  unfold exists_ at 1.
  fold (exists_ gen (tryImport (retryKey s)
     (setInstances (<[retryKey s := mkInstance 0 false pending]> (instances s))
        (memoLazyComponent p s)))).
  rewrite exists_tryImport. unfold exists_. cbn [instances setInstances].
  rewrite lookup_insert_is_Some. intros [<-|[_ ?]]; [by right | by left].
Qed.

Lemma KeysInv_same s s' :
  keysOf s' = keysOf s -> (forall gen, exists_ gen s' -> exists_ gen s) ->
  KeysInv s -> KeysInv s'.
Proof.
  unfold keysOf, KeysInv. intros [= -> ->] He (H1 & H2 & H3).
  repeat split; try done; by apply H3, He.
Qed.

Lemma KeysInv_handleReset p s : KeysInv s -> KeysInv (handleReset p s).
Proof.
  intros (H1 & H2 & H3). unfold KeysInv.
  destruct (handleReset_keys p s) as [-> ->].
  unfold exists_. rewrite handleReset_instances.
  split; [lia|]. split; [lia|]. intros gen Hg. apply H3 in Hg. lia.
Qed.

Lemma KeysInv_step p ev s : KeysInv s -> KeysInv (step p ev s).
Proof.
  intros H. destruct ev; cbn [step].
  - pose proof H as (H1 & H2 & H3). unfold KeysInv.
    pose proof (keys_render p s) as Hk. unfold keysOf in Hk.
    injection Hk as -> ->.
    split; [done|]. split; [done|]. intros gen Hg.
    apply exists_render in Hg as [? | ->]; [by apply H3 | lia].
  - apply (KeysInv_same s); [apply keys_settleImport | | done].
    intros gen. by rewrite exists_settleImport.
  - apply (KeysInv_same s); [apply keys_fireTimer | | done].
    intros gen. by rewrite exists_fireTimer.
  - apply (KeysInv_same s); [apply keys_capture | | done].
    intros gen. unfold exists_. by rewrite instances_capture.
  - by apply KeysInv_handleReset.
  - unfold handleRetry, resetErrorBoundary.
    destruct (boundaryError _); [|by apply KeysInv_handleReset].
    by apply (KeysInv_handleReset p (handleReset p s)), KeysInv_handleReset.
  - apply (KeysInv_same s); [apply keys_unmount | | done].
    intros gen. unfold exists_. by rewrite instances_unmount.
Qed.

Lemma KeysInv_run p evs : KeysInv (run p evs initialState).
Proof.
  assert (forall s, KeysInv s -> KeysInv (run p evs s)) as H.
  { induction evs as [|ev evs IH]; intros s Hs; [done|].
    cbn [run foldl]. apply IH. by apply KeysInv_step. }
  apply H. split; [done|]. split; [done|].
  intros gen [x Hx]. cbn in Hx. by rewrite lookup_empty in Hx.
Qed.

Lemma retryKey_step p ev s : retryKey s <= retryKey (step p ev s).
Proof.
  assert (forall s', keysOf s' = keysOf s -> retryKey s <= retryKey s') as H.
  { unfold keysOf. intros s' [= _ ->]. lia. }
  destruct ev; cbn [step].
  - apply H, keys_render.
  - apply H, keys_settleImport.
  - apply H, keys_fireTimer.
  - apply H, keys_capture.
  - destruct (handleReset_keys p s) as [-> _]. lia.
  - unfold handleRetry, resetErrorBoundary.
    destruct (boundaryError _).
    + change (retryKey (setBoundaryError ?k ?x)) with (retryKey x).
      destruct (handleReset_keys p (handleReset p s)) as [-> _].
      destruct (handleReset_keys p s) as [-> _]. lia.
    + destruct (handleReset_keys p s) as [-> _]. lia.
  - apply H, keys_unmount.
Qed.

Lemma retryKey_run p evs s : retryKey s <= retryKey (run p evs s).
Proof.
  revert s. induction evs as [|ev evs IH]; intros s; [done|].
  cbn [run foldl]. etransitivity; [apply (retryKey_step p ev) | apply IH].
Qed.

(** X4.  The two keys move together.  In every reachable state
    [mountKey] equals [retryKey], both are non-negative, no later event
    decreases them, and every loader instance that exists belongs to a
    key between 0 and the current [retryKey]. *)
Theorem X4_keys_agree p evs evs' gen :
  let s := run p evs initialState in
  mountKey s = retryKey s /\ 0 <= retryKey s /\
  retryKey s <= retryKey (run p evs' s) /\
  (is_Some (instances s !! gen) -> 0 <= gen <= retryKey s).
Proof.
  intros s. destruct (KeysInv_run p evs) as (H1 & H2 & H3).
  split; [done|]. split; [done|]. split; [apply retryKey_run|]. apply H3.
Qed.

(** ** One instance, one activity *)

Lemma ord_excl p s c t g d :
  Orderly p s -> imports s !! c = Some g -> timeouts s !! t = Some (g, d) ->
  False.
Proof.
  intros H Hc Ht.
  destruct (ord_import p s H c g Hc) as (_ & i1 & E1 & _ & N1).
  destruct (ord_timer p s H t g d Ht) as (_ & i2 & E2 & _ & N2 & _).
  rewrite E1 in E2. injection E2 as <-. lia.
Qed.

(** A state that differs only in cells the invariant does not read, in
    timers taken away and in effects that are neither imports nor
    settlements. *)
Lemma Orderly_frame p s s' :
  imports s' = imports s -> calls s' = calls s ->
  (forall t x, timeouts s' !! t = Some x -> timeouts s !! t = Some x) ->
  nextTimerId s' = nextTimerId s ->
  instances s' = instances s ->
  (forall g, importsOf g s' = importsOf g s) ->
  (forall g, settlesOf g s' = settlesOf g s) ->
  Orderly p s -> Orderly p s'.
Proof.
  intros Hi Hc Ht Hn Hx Him Hse [F1 F2 F3 F4 F5 F6 F7].
  split.
  - unfold flagsClear. rewrite Hx. apply F1.
  - intros c g. rewrite Hi, Hc, Hx, Him. apply F2.
  - intros t g d H. apply Ht in H. rewrite Hn, Hx, Him. by apply (F3 t g d).
  - intros c1 c2 g. rewrite Hi. apply F4.
  - intros t1 t2 g d1 d2 H1 H2. apply Ht in H1, H2. by apply (F5 t1 t2 g d1 d2).
  - intros g inst. rewrite Hx, Him, Hse. apply F6.
  - intros g. rewrite Hx, Him, Hse. apply F7.
Qed.

Lemma importsOf_app g s Δ s' :
  trace s' = trace s ++ Δ ->
  importsOf g s' = importsOf g s + Z.of_nat (count (isImportOf g) Δ).
Proof. unfold importsOf. intros ->. rewrite count_app. lia. Qed.

Lemma settlesOf_app g s Δ s' :
  trace s' = trace s ++ Δ ->
  settlesOf g s' = (settlesOf g s + count (isSettleOf g) Δ)%nat.
Proof. unfold settlesOf. intros ->. by rewrite count_app. Qed.

Lemma Orderly_initial p : Orderly p initialState.
Proof.
  split; unfold flagsClear, initialState;
    cbn [instances imports timeouts trace];
    intros *; rewrite ?lookup_empty; try discriminate.
  by intros _.
Qed.

Lemma limit_pos p : 1 <= limit p.
Proof. unfold limit. lia. Qed.

Lemma importsOf_emit g e s :
  importsOf g (emit e s) = importsOf g s + if isImportOf g e then 1 else 0.
Proof.
  unfold importsOf. cbn [trace emit]. rewrite count_app. cbn [count].
  destruct (isImportOf g e); lia.
Qed.

Lemma settlesOf_emit g e s :
  settlesOf g (emit e s) = (settlesOf g s + if isSettleOf g e then 1 else 0)%nat.
Proof.
  unfold settlesOf. cbn [trace emit]. rewrite count_app. cbn [count].
  destruct (isSettleOf g e); lia.
Qed.

(** [resolve] or [reject] called for an idle generation whose handle is
    pending. *)
Lemma Orderly_settle p s g inst f e :
  Orderly p s -> Idle g s ->
  instances s !! g = Some inst -> handle inst = pending ->
  f pending <> pending ->
  isSettleOf g e = true ->
  (forall g', g' <> g -> isSettleOf g' e = false) ->
  (forall g', isImportOf g' e = false) ->
  Orderly p (emit e (updateHandle f g s)).
Proof.
  intros [F1 F2 F3 F4 F5 F6 F7] [I1 I2] Hg Hp Hf He1 He2 He3.
  assert (forall g', importsOf g' (emit e (updateHandle f g s)) = importsOf g' s)
    as Him.
  { intros g'. rewrite importsOf_emit, He3.
    unfold importsOf. cbn [trace updateHandle setInstances]. lia. }
  assert (forall g', g' <> g ->
            instances (emit e (updateHandle f g s)) !! g' = instances s !! g')
    as Hne.
  { intros g' Hn. cbn [instances emit updateHandle setInstances].
    by rewrite lookup_alter_ne. }
  assert (instances (emit e (updateHandle f g s)) !! g
          = Some (mkInstance (attempts inst) (currentAttemptCancelled inst)
                    (f pending))) as Heq.
  { cbn [instances emit updateHandle setInstances].
    by rewrite lookup_alter_eq, Hg, <- Hp. }
  split.
  - intros g' inst'. destruct (decide (g' = g)) as [->|Hn].
    + rewrite Heq. intros [= <-]. cbn. by apply (F1 g).
    + rewrite Hne by done. apply F1.
  - intros c g' Hc. change (imports s !! c = Some g') in Hc.
    assert (g' <> g) as Hn by (intros ->; by apply (I1 c)).
    rewrite Hne, Him by done. by apply F2.
  - intros t g' d Ht. change (timeouts s !! t = Some (g', d)) in Ht.
    assert (g' <> g) as Hn by (intros ->; by apply (I2 t d)).
    rewrite Hne, Him by done. by apply (F3 t g' d).
  - apply F4.
  - apply F5.
  - intros g' inst'. destruct (decide (g' = g)) as [->|Hn].
    + rewrite Heq. intros [= <-]. cbn [attempts handle].
      rewrite Him, settlesOf_emit, He1.
      destruct (F6 g inst Hg) as (A1 & A2 & A3 & A4).
      repeat split; try done; try lia.
      unfold settlesOf in *. cbn [trace updateHandle setInstances].
      rewrite A4, Hp. cbn. by destruct (f pending).
    + rewrite Hne, Him, settlesOf_emit, He2 by done.
      intros H. destruct (F6 g' inst' H) as (A1 & A2 & A3 & A4).
      repeat split; try done; try lia.
      unfold settlesOf in *. cbn [trace updateHandle setInstances]. lia.
  - intros g'. destruct (decide (g' = g)) as [->|Hn]; [by rewrite Heq|].
    rewrite Hne, Him, settlesOf_emit, He2 by done.
    intros H. destruct (F7 g' H) as [B1 B2]. split; [done|].
    unfold settlesOf in *. cbn [trace updateHandle setInstances]. lia.
Qed.

Lemma Idle_settled f g e s : Idle g s -> Idle g (emit e (updateHandle f g s)).
Proof. done. Qed.

(** The loader is called for an idle generation. *)
Lemma Orderly_issue p s g inst :
  Orderly p s -> Idle g s ->
  instances s !! g = Some inst -> handle inst = pending ->
  importsOf g s = attempts inst -> attempts inst < limit p ->
  Orderly p
    (emit (EImport g (calls s))
       (setCalls (S (calls s))
          (setImports (<[calls s := g]> (imports s)) s))).
Proof.
  intros [F1 F2 F3 F4 F5 F6 F7] [I1 I2] Hg Hp Hn Hl.
  set (s' := emit (EImport g (calls s))
       (setCalls (S (calls s)) (setImports (<[calls s := g]> (imports s)) s))).
  assert (forall g', importsOf g' s' =
                     importsOf g' s + if decide (g' = g) then 1 else 0) as Him.
  { intros g'. unfold s'. rewrite importsOf_emit. cbn [isImportOf].
    unfold importsOf. cbn [trace setCalls setImports].
    destruct (decide (g' = g)) as [->|?].
    - by rewrite bool_decide_eq_true_2.
    - by rewrite bool_decide_eq_false_2. }
  assert (forall g', settlesOf g' s' = settlesOf g' s) as Hse.
  { intros g'. unfold s'. rewrite settlesOf_emit. cbn [isSettleOf].
    unfold settlesOf. cbn [trace setCalls setImports]. lia. }
  assert (forall c g', imports s' !! c = Some g' ->
            (c = calls s /\ g' = g) \/ (c <> calls s /\ imports s !! c = Some g'))
    as Hcase.
  { intros c g'. unfold s'. cbn [imports emit setCalls setImports].
    destruct (decide (calls s = c)) as [<-|?].
    - rewrite lookup_insert_eq. intros [= <-]. by left.
    - rewrite lookup_insert_ne by done. intros H. right. by split. }
  split.
  - apply F1.
  - intros c g' Hc. change (calls s') with (S (calls s)).
    change (instances s') with (instances s). rewrite Him.
    apply Hcase in Hc as [[-> ->]|[Hne Hc]].
    + split; [lia|]. exists inst. rewrite decide_True by done.
      repeat split; try done. lia.
    + assert (g' <> g) as Hn' by (intros ->; by apply (I1 c)).
      rewrite decide_False by done. rewrite Z.add_0_r.
      destruct (F2 c g' Hc) as [? ?]. split; [lia | done].
  - intros t g' d Ht. change (timeouts s !! t = Some (g', d)) in Ht.
    assert (g' <> g) as Hn' by (intros ->; by apply (I2 t d)).
    change (instances s') with (instances s). rewrite Him.
    rewrite decide_False by done. rewrite Z.add_0_r. by apply (F3 t g' d).
  - intros c1 c2 g' H1 H2.
    apply Hcase in H1 as [[-> ->]|[N1 H1]], H2 as [[-> E2]|[N2 H2]];
      try done.
    + exfalso. eapply I1. eassumption.
    + subst g'. exfalso. eapply I1. eassumption.
    + by apply (F4 c1 c2 g').
  - apply F5.
  - intros g' inst' H. change (instances s !! g' = Some inst') in H.
    rewrite Him, Hse. destruct (F6 g' inst' H) as (A1 & A2 & A3 & A4).
    destruct (decide (g' = g)) as [->|?].
    + rewrite Hg in H. injection H as <-. repeat split; try done; lia.
    + rewrite Z.add_0_r. done.
  - intros g' H. change (instances s !! g' = None) in H.
    rewrite Him, Hse. destruct (decide (g' = g)) as [->|?];
      [by rewrite Hg in H|].
    rewrite Z.add_0_r. by apply F7.
Qed.

Lemma Orderly_tryImport p s g inst :
  Orderly p s -> Idle g s ->
  instances s !! g = Some inst -> handle inst = pending ->
  importsOf g s = attempts inst -> attempts inst < limit p ->
  Orderly p (tryImport g s).
Proof.
  intros Hs Hi Hg Hp Hn Hl. unfold tryImport. rewrite Hg.
  destruct (_ || _).
  - unfold rejectHandle. apply (Orderly_settle p s g inst); try done.
    + cbn. by rewrite bool_decide_eq_true_2.
    + intros g' Hne. cbn. by rewrite bool_decide_eq_false_2.
  - by apply (Orderly_issue p s g inst).
Qed.

(** The promise of call [c] leaves the host's table. *)
Lemma Orderly_drop_import p s c g :
  Orderly p s -> imports s !! c = Some g ->
  Orderly p (setImports (delete c (imports s)) s) /\
  Idle g (setImports (delete c (imports s)) s) /\
  exists inst,
    instances s !! g = Some inst /\ handle inst = pending /\
    importsOf g s = attempts inst + 1 /\ attempts inst < limit p.
Proof.
  intros Hs Hc. pose proof Hs as [F1 F2 F3 F4 F5 F6 F7].
  split; [|split].
  - split; try done.
    + intros c' g'. cbn [imports setImports].
      rewrite lookup_delete_Some. intros [_ H]. by apply F2.
    + intros c1 c2 g'. cbn [imports setImports].
      rewrite !lookup_delete_Some. intros [_ H1] [_ H2]. by apply (F4 c1 c2 g').
  - split.
    + intros c'. cbn [imports setImports]. rewrite lookup_delete_Some.
      intros [Hne H]. apply Hne. by apply (F4 c c' g).
    + intros t d Ht. by apply (ord_excl p s c t g d).
  - destruct (F2 c g Hc) as (_ & inst & E & Hp & Hn). exists inst.
    destruct (F6 g inst E) as (_ & _ & A3 & _).
    repeat split; try done. by apply A3.
Qed.

(** Timeout [t] leaves the host's table and [timersRef]. *)
Lemma Orderly_expire p s t g d :
  Orderly p s -> timeouts s !! t = Some (g, d) ->
  let s1 := setTimers (timersRef s ∖ {[t]})
              (setTimeouts (delete t (timeouts s)) s) in
  Orderly p s1 /\ Idle g s1 /\
  exists inst,
    instances s !! g = Some inst /\ handle inst = pending /\
    importsOf g s = attempts inst /\ attempts inst < limit p.
Proof.
  intros Hs Ht s1. subst s1. pose proof Hs as [F1 F2 F3 F4 F5 F6 F7].
  split; [|split].
  - apply (Orderly_frame p s); try done.
    intros t' x. cbn [timeouts setTimers setTimeouts].
    rewrite lookup_delete_Some. by intros [_ ?].
  - split.
    + intros c Hc. by apply (ord_excl p s c t g d).
    + intros t' d'. cbn [timeouts setTimers setTimeouts].
      rewrite lookup_delete_Some. intros [Hne H]. apply Hne.
      by apply (F5 t t' g d d').
  - destruct (F3 t g d Ht) as (_ & inst & ?). by exists inst.
Qed.

(** ** Updates the invariant does not see *)

Lemma Calm_refl s : Calm s s.
Proof. by repeat split. Qed.

Lemma Calm_trans s1 s2 s3 : Calm s1 s2 -> Calm s2 s3 -> Calm s1 s3.
Proof.
  intros (A1 & A2 & A3 & A4 & A5 & A6 & A7) (B1 & B2 & B3 & B4 & B5 & B6 & B7).
  split; [congruence|]. split; [congruence|].
  split; [intros t x H; by apply A3, B3|].
  split; [congruence|]. split; [congruence|].
  split; intros g; [by rewrite B6 | by rewrite B7].
Qed.

Lemma Orderly_calm p s s' : Calm s s' -> Orderly p s -> Orderly p s'.
Proof.
  intros (A1 & A2 & A3 & A4 & A5 & A6 & A7). by apply Orderly_frame.
Qed.

Lemma Idle_calm g s s' : Calm s s' -> Idle g s -> Idle g s'.
Proof.
  intros (A1 & A2 & A3 & A4 & A5 & A6 & A7) [I1 I2]. split.
  - intros c. rewrite A1. apply I1.
  - intros t d H. by apply (I2 t d), A3.
Qed.

Lemma Calm_emit e s :
  (forall g, isImportOf g e = false) -> (forall g, isSettleOf g e = false) ->
  Calm s (emit e s).
Proof.
  intros Hi Hs. repeat split; try done.
  - intros g. rewrite importsOf_emit, Hi. lia.
  - intros g. rewrite settlesOf_emit, Hs. lia.
Qed.

Lemma Calm_log p level line s : Calm s (log p level line s).
Proof.
  unfold log. destruct (verbose p); [by apply Calm_emit | apply Calm_refl].
Qed.

Lemma Calm_clearAllTimers s : Calm s (clearAllTimers s).
Proof.
  rewrite clearAllTimers_eq. repeat split; try done.
  - intros t x. cbn [timeouts]. rewrite deleteAll_lookup.
    by destruct (decide _).
  - intros g. unfold importsOf. cbn [trace]. rewrite count_app.
    rewrite count_clear by done. lia.
  - intros g. unfold settlesOf. cbn [trace]. rewrite count_app.
    rewrite count_clear by done. lia.
Qed.

Lemma Calm_unmount p s : Calm s (unmount p s).
Proof.
  unfold unmount.
  eapply Calm_trans; [|apply Calm_log].
  eapply Calm_trans; [|apply Calm_clearAllTimers].
  by repeat split.
Qed.

Lemma Calm_handleReset p s : Calm s (handleReset p s).
Proof.
  unfold handleReset, retryLazyComponent.
  set (s1 := log p LInfo LogRetryingLoading s).
  set (s2 := log p LInfo LogForcing s1).
  set (s3 := clearAllTimers s2).
  assert (Calm s s3) as H3.
  { eapply Calm_trans; [apply Calm_log|]. fold s1.
    eapply Calm_trans; [apply Calm_log|]. fold s2.
    apply Calm_clearAllTimers. }
  set (s4 := setRetryKey (retryKey s3 + 1) (emit (ESetRetryKey (retryKey s3 + 1)) s3)).
  assert (Calm s s4) as H4.
  { eapply Calm_trans; [exact H3|].
    eapply Calm_trans; [by apply (Calm_emit (ESetRetryKey (retryKey s3 + 1)))|].
    by repeat split. }
  set (k := mountKey s4 + 1).
  set (s5 := log p LInfo (LogRemounting k) (emit (ESetMountKey k) s4)).
  assert (Calm s (setMountKey k s5)) as H5.
  { eapply Calm_trans; [exact H4|].
    eapply Calm_trans; [by apply (Calm_emit (ESetMountKey k))|].
    eapply Calm_trans; [apply Calm_log|]. fold s5. by repeat split. }
  destruct (onRetry p); [|exact H5].
  eapply Calm_trans; [exact H5|]. by apply Calm_emit.
Qed.

Lemma Calm_resetErrorBoundary p s : Calm s (resetErrorBoundary p s).
Proof.
  unfold resetErrorBoundary. destruct (boundaryError s); [|apply Calm_refl].
  eapply Calm_trans; [apply Calm_handleReset|]. by repeat split.
Qed.

Lemma Calm_handleRetry p s : Calm s (handleRetry p s).
Proof.
  unfold handleRetry.
  eapply Calm_trans; [apply Calm_handleReset | apply Calm_resetErrorBoundary].
Qed.

Lemma Calm_capture p err stack s : Calm s (capture p err stack s).
Proof.
  unfold capture, handleError.
  set (s0 := setBoundaryError (Some err) s).
  assert (Calm s s0) as H0 by by repeat split.
  set (s1 := log p LError (LogLazyLoadError err) s0).
  set (s2 := log p LError (LogComponentStack stack) s1).
  assert (Calm s s2) as H2.
  { eapply Calm_trans; [exact H0|].
    eapply Calm_trans; apply Calm_log. }
  destruct (onError p); [|exact H2].
  eapply Calm_trans; [exact H2|]. by apply Calm_emit.
Qed.

Lemma Calm_memoLazyComponent p s : Calm s (memoLazyComponent p s).
Proof.
  unfold memoLazyComponent. destruct (decide _); [apply Calm_refl | apply Calm_log].
Qed.

Lemma Calm_commitRetryKeyEffect k s : Calm s (commitRetryKeyEffect k s).
Proof.
  unfold commitRetryKeyEffect. destruct k as [k|]; [|apply Calm_refl].
  destruct (decide _); [apply Calm_refl | apply Calm_clearAllTimers].
Qed.

(** ** Updates of one instance *)

(** A failed attempt is counted. *)
Lemma Orderly_bump p s g inst :
  Orderly p s -> Idle g s ->
  instances s !! g = Some inst ->
  importsOf g s = attempts inst + 1 -> attempts inst < limit p ->
  Orderly p
    (setInstances
       (<[g := mkInstance (attempts inst + 1) (currentAttemptCancelled inst)
                (handle inst)]> (instances s)) s).
Proof.
  intros [F1 F2 F3 F4 F5 F6 F7] [I1 I2] Hg Hn Hl.
  set (s' := setInstances _ s).
  assert (forall g', g' <> g -> instances s' !! g' = instances s !! g') as Hne.
  { intros g' H. unfold s'. cbn [instances setInstances].
    by rewrite lookup_insert_ne. }
  assert (instances s' !! g =
          Some (mkInstance (attempts inst + 1) (currentAttemptCancelled inst)
                  (handle inst))) as Heq.
  { unfold s'. cbn [instances setInstances]. by rewrite lookup_insert_eq. }
  split.
  - intros g' inst'. destruct (decide (g' = g)) as [->|H].
    + rewrite Heq. intros [= <-]. cbn. by apply (F1 g).
    + rewrite Hne by done. apply F1.
  - intros c g' Hc. change (imports s !! c = Some g') in Hc.
    assert (g' <> g) as H by (intros ->; by apply (I1 c)).
    rewrite Hne by done. by apply F2.
  - intros t g' d Ht. change (timeouts s !! t = Some (g', d)) in Ht.
    assert (g' <> g) as H by (intros ->; by apply (I2 t d)).
    rewrite Hne by done. by apply (F3 t g' d).
  - apply F4.
  - apply F5.
  - intros g' inst'. destruct (decide (g' = g)) as [->|H].
    + rewrite Heq. intros [= <-]. cbn [attempts handle].
      change (importsOf g s') with (importsOf g s).
      change (settlesOf g s') with (settlesOf g s).
      destruct (F6 g inst Hg) as (A1 & A2 & A3 & A4).
      repeat split; try done; lia.
    + rewrite Hne by done. apply F6.
  - intros g'. destruct (decide (g' = g)) as [->|H]; [by rewrite Heq|].
    rewrite Hne by done. apply F7.
Qed.

(** A retry is scheduled for an idle generation. *)
Lemma Orderly_schedule p s g inst delay :
  Orderly p s -> Idle g s ->
  instances s !! g = Some inst -> handle inst = pending ->
  importsOf g s = attempts inst -> attempts inst < limit p ->
  Orderly p (createSafeTimeout g delay s).
Proof.
  intros Hs [I1 I2] Hg Hp Hn Hl. unfold createSafeTimeout.
  destruct (negb (isMountedRef s)); [done|].
  destruct Hs as [F1 F2 F3 F4 F5 F6 F7].
  set (s' := setTimers _ _).
  assert (forall t g' d, timeouts s' !! t = Some (g', d) ->
            (t = nextTimerId s /\ g' = g) \/
            (t <> nextTimerId s /\ timeouts s !! t = Some (g', d))) as Hcase.
  { intros t g' d. unfold s'.
    cbn [timeouts emit setTimers setNextTimerId setTimeouts].
    destruct (decide (nextTimerId s = t)) as [<-|?].
    - rewrite lookup_insert_eq. intros [= <- <-]. by left.
    - rewrite lookup_insert_ne by done. intros H. right. by split. }
  assert (forall g', importsOf g' s' = importsOf g' s) as Him.
  { intros g'. unfold s', importsOf.
    cbn [trace emit setTimers setNextTimerId setTimeouts].
    rewrite count_app. cbn. lia. }
  assert (forall g', settlesOf g' s' = settlesOf g' s) as Hse.
  { intros g'. unfold s', settlesOf.
    cbn [trace emit setTimers setNextTimerId setTimeouts].
    rewrite count_app. cbn. lia. }
  split.
  - apply F1.
  - intros c g' Hc. change (imports s !! c = Some g') in Hc.
    change (calls s') with (calls s).
    change (instances s') with (instances s). rewrite Him. by apply F2.
  - intros t g' d Ht. change (nextTimerId s') with (S (nextTimerId s)).
    change (instances s') with (instances s). rewrite Him.
    apply Hcase in Ht as [[-> ->]|[Hne Ht]].
    + split; [lia|]. by exists inst.
    + destruct (F3 t g' d Ht) as [? ?]. split; [lia | done].
  - apply F4.
  - intros t1 t2 g' d1 d2 H1 H2.
    apply Hcase in H1 as [[-> E1]|[N1 H1]], H2 as [[-> E2]|[N2 H2]];
      try done.
    + subst g'. exfalso. eapply I2. eassumption.
    + subst g'. exfalso. eapply I2. eassumption.
    + by apply (F5 t1 t2 g' d1 d2).
  - intros g' inst' H. change (instances s !! g' = Some inst') in H.
    rewrite Him, Hse. by apply F6.
  - intros g' H. change (instances s !! g' = None) in H.
    rewrite Him, Hse. by apply F7.
Qed.

Lemma Orderly_onImportFulfilled p s g inst module :
  Orderly p s -> Idle g s ->
  instances s !! g = Some inst -> handle inst = pending ->
  Orderly p (onImportFulfilled g module s).
Proof.
  intros Hs Hi Hg Hp. unfold onImportFulfilled. rewrite Hg.
  destruct (_ && _); [|done].
  unfold resolveHandle. apply (Orderly_settle p s g inst); try done.
  - cbn. by rewrite bool_decide_eq_true_2.
  - intros g' Hne. cbn. by rewrite bool_decide_eq_false_2.
Qed.

Lemma Orderly_rejectHandle p s g inst err :
  Orderly p s -> Idle g s ->
  instances s !! g = Some inst -> handle inst = pending ->
  Orderly p (rejectHandle g err s).
Proof.
  intros Hs Hi Hg Hp.
  unfold rejectHandle. apply (Orderly_settle p s g inst); try done.
  - cbn. by rewrite bool_decide_eq_true_2.
  - intros g' Hne. cbn. by rewrite bool_decide_eq_false_2.
Qed.

Lemma Orderly_onImportRejected p s g inst err :
  Orderly p s -> Idle g s ->
  instances s !! g = Some inst -> handle inst = pending ->
  importsOf g s = attempts inst + 1 -> attempts inst < limit p ->
  Orderly p (onImportRejected p g err s).
Proof.
  intros Hs Hi Hg Hp Hn Hl. unfold onImportRejected. rewrite Hg.
  destruct (_ || _); [by apply (Orderly_rejectHandle p s g inst)|].
  set (inst' := mkInstance (attempts inst + 1) (currentAttemptCancelled inst)
                  (handle inst)).
  set (s1 := setInstances (<[g := inst']> (instances s)) s).
  assert (Orderly p s1) as H1 by by apply Orderly_bump.
  assert (Idle g s1) as I1 by exact Hi.
  assert (instances s1 !! g = Some inst') as Hg1.
  { unfold s1. cbn [instances setInstances]. by rewrite lookup_insert_eq. }
  destruct err as [|err];
    [apply (Orderly_calm p s1); [by apply Calm_emit | done]|].
  set (s2 := log p LInfo _ s1).
  assert (Calm s1 s2) as C2 by apply Calm_log.
  pose proof C2 as (_ & _ & _ & _ & Hx2 & Him2 & _).
  destruct (Z.geb_spec (attempts inst + 1) (retries p)) as [Hge|Hlt].
  - apply (Orderly_rejectHandle p s2 g inst').
    + by apply (Orderly_calm p s1).
    + by apply (Idle_calm g s1).
    + by rewrite Hx2.
    + exact Hp.
  - set (s3 := log p LInfo _ s2).
    assert (Calm s2 s3) as C3 by apply Calm_log.
    pose proof C3 as (_ & _ & _ & _ & Hx3 & Him3 & _).
    apply (Orderly_schedule p s3 g inst').
    + apply (Orderly_calm p s2); [done|]. by apply (Orderly_calm p s1).
    + apply (Idle_calm g s2); [done|]. by apply (Idle_calm g s1).
    + by rewrite Hx3, Hx2.
    + exact Hp.
    + rewrite Him3, Him2. exact Hn.
    + cbn [attempts inst']. unfold limit. lia.
Qed.

Lemma Orderly_settleImport p s c : Orderly p s -> Orderly p (settleImport p c s).
Proof.
  intros Hs. unfold settleImport.
  destruct (imports s !! c) as [g|] eqn:Hc; [|done].
  destruct (Orderly_drop_import p s c g Hs Hc)
    as (H1 & I1 & inst & Hg & Hp & Hn & Hl).
  destruct (importFn p c).
  - by apply (Orderly_onImportFulfilled p _ g inst).
  - by apply (Orderly_onImportRejected p _ g inst).
Qed.

Lemma Orderly_fireTimer p s t : Orderly p s -> Orderly p (fireTimer t s).
Proof.
  intros Hs. unfold fireTimer.
  destruct (timeouts s !! t) as [[g d]|] eqn:Ht; [|done].
  destruct (Orderly_expire p s t g d Hs Ht)
    as (H1 & I1 & inst & Hg & Hp & Hn & Hl).
  cbn zeta in H1, I1.
  destruct (isMountedRef _); [|exact H1].
  by apply (Orderly_tryImport p _ g inst).
Qed.

(** The executor starts with fresh locals. *)
Lemma Orderly_executor p s g :
  Orderly p s -> instances s !! g = None -> Orderly p (executor g s).
Proof.
  intros Hs Hg. pose proof Hs as [F1 F2 F3 F4 F5 F6 F7].
  unfold executor.
  set (inst := mkInstance 0 false pending).
  set (s0 := setInstances (<[g := inst]> (instances s)) s).
  assert (Idle g s) as Hi.
  { split.
    - intros c Hc. destruct (F2 c g Hc) as (_ & i & E & _). congruence.
    - intros t d Ht. destruct (F3 t g d Ht) as (_ & i & E & _). congruence. }
  destruct (F7 g Hg) as [N1 N2].
  assert (forall g', g' <> g -> instances s0 !! g' = instances s !! g') as Hne.
  { intros g' H. unfold s0. cbn [instances setInstances].
    by rewrite lookup_insert_ne. }
  assert (instances s0 !! g = Some inst) as Heq.
  { unfold s0. cbn [instances setInstances]. by rewrite lookup_insert_eq. }
  assert (Orderly p s0) as H0.
  { destruct Hi as [I1 I2]. split.
    - intros g' inst'. destruct (decide (g' = g)) as [->|H].
      + rewrite Heq. by intros [= <-].
      + rewrite Hne by done. apply F1.
    - intros c g' Hc. change (imports s !! c = Some g') in Hc.
      assert (g' <> g) as H by (intros ->; by apply (I1 c)).
      rewrite Hne by done. by apply F2.
    - intros t g' d Ht. change (timeouts s !! t = Some (g', d)) in Ht.
      assert (g' <> g) as H by (intros ->; by apply (I2 t d)).
      rewrite Hne by done. by apply (F3 t g' d).
    - apply F4.
    - apply F5.
    - intros g' inst'. destruct (decide (g' = g)) as [->|H].
      + rewrite Heq. intros [= <-]. cbn [attempts handle inst settledBit].
        change (importsOf g s0) with (importsOf g s).
        change (settlesOf g s0) with (settlesOf g s).
        pose proof (limit_pos p). repeat split; try done; lia.
      + rewrite Hne by done. apply F6.
    - intros g'. destruct (decide (g' = g)) as [->|H]; [by rewrite Heq|].
      rewrite Hne by done. apply F7. }
  apply (Orderly_tryImport p s0 g inst); try done.
  cbn [attempts inst]. pose proof (limit_pos p). lia.
Qed.

Lemma Orderly_render p s : Orderly p s -> Orderly p (render p s).
Proof.
  intros Hs. unfold render. destruct (negb (isMountedRef s)); [done|].
  set (s1 := memoLazyComponent p s).
  assert (Orderly p s1) as H1
    by (apply (Orderly_calm p s); [apply Calm_memoLazyComponent | done]).
  set (s2 := renderChildren p s1).
  assert (Orderly p s2) as H2.
  { unfold s2, renderChildren. destruct (boundaryError s1); [done|].
    destruct (instances s1 !! retryKey s1) as [inst|] eqn:E;
      [|by apply Orderly_executor].
    destruct (handle inst); try done.
    apply (Orderly_calm p s1); [apply Calm_capture | done]. }
  set (s3 := commitRetryKeyEffect (renderedKey s) s2).
  assert (Orderly p s3) as H3
    by (apply (Orderly_calm p s2); [apply Calm_commitRetryKeyEffect | done]).
  apply (Orderly_calm p s3); [|done]. by repeat split.
Qed.

Lemma Orderly_step p ev s : Orderly p s -> Orderly p (step p ev s).
Proof.
  intros Hs. destruct ev; cbn [step].
  - by apply Orderly_render.
  - by apply Orderly_settleImport.
  - by apply Orderly_fireTimer.
  - apply (Orderly_calm p s); [apply Calm_capture | done].
  - apply (Orderly_calm p s); [apply Calm_handleReset | done].
  - apply (Orderly_calm p s); [apply Calm_handleRetry | done].
  - apply (Orderly_calm p s); [apply Calm_unmount | done].
Qed.

Lemma Orderly_run p evs s : Orderly p s -> Orderly p (run p evs s).
Proof.
  revert s. induction evs as [|ev evs IH]; intros s Hs; [done|].
  apply IH. by apply Orderly_step.
Qed.

Lemma Orderly_reachable p evs : Orderly p (run p evs initialState).
Proof. apply Orderly_run, Orderly_initial. Qed.

(** X5.  One thing at a time.  In every reachable state a loader
    instance has at most one import in flight and at most one retry
    timer, never both; and as long as it has either, its handle is
    pending. *)
Theorem X5_one_activity_per_instance p evs g c1 c2 t1 t2 d1 d2 :
  let s := run p evs initialState in
  (imports s !! c1 = Some g -> imports s !! c2 = Some g -> c1 = c2) /\
  (timeouts s !! t1 = Some (g, d1) -> timeouts s !! t2 = Some (g, d2) ->
   t1 = t2) /\
  (imports s !! c1 = Some g -> timeouts s !! t1 <> Some (g, d1)) /\
  (imports s !! c1 = Some g \/ timeouts s !! t1 = Some (g, d1) ->
   handleOf g s = Some pending).
Proof.
  intros s. pose proof (Orderly_reachable p evs) as H. fold s in H.
  split; [apply (ord_one_import p s H)|].
  split; [apply (ord_one_timer p s H)|].
  split; [intros Hc Ht; by apply (ord_excl p s c1 t1 g d1)|].
  unfold handleOf. intros [Hc|Ht].
  - destruct (ord_import p s H c1 g Hc) as (_ & inst & -> & Hp & _).
    cbn. by rewrite Hp.
  - destruct (ord_timer p s H t1 g d1 Ht) as (_ & inst & -> & Hp & _).
    cbn. by rewrite Hp.
Qed.

(** X6.  Over any run, [resolve] and [reject] of one loader instance
    are called at most once in total: exactly once when its handle is
    settled, never while the handle is pending or the instance does
    not exist. *)
Theorem X6_settled_once p evs g :
  let s := run p evs initialState in
  settlesOf g s =
    match handleOf g s with
    | Some (resolved _) | Some (rejected _) => 1%nat
    | Some pending | None => 0%nat
    end /\
  (settlesOf g s <= 1)%nat.
Proof.
  intros s. pose proof (Orderly_reachable p evs) as H. fold s in H.
  unfold handleOf.
  destruct (instances s !! g) as [inst|] eqn:E.
  - destruct (ord_inst p s H g inst E) as (_ & _ & _ & ->).
    cbn. destruct (handle inst); cbn; split; (reflexivity || lia).
  - destruct (ord_none p s H g E) as [_ ->]. cbn. split; (reflexivity || lia).
Qed.

(** X7.  Under any schedule of events, one loader instance calls the
    loader at most max(retries, 1) times; its counter [attempts] stays
    between 0 and max(retries, 1), and the calls it has made are
    [attempts] or [attempts + 1]. *)
Theorem X7_calls_bounded p evs g :
  let s := run p evs initialState in
  0 <= importsOf g s <= Z.max (retries p) 1 /\
  match attemptsOf g s with
  | Some n => 0 <= n <= Z.max (retries p) 1 /\ n <= importsOf g s <= n + 1
  | None => importsOf g s = 0
  end.
Proof.
  intros s. pose proof (Orderly_reachable p evs) as H. fold s in H.
  unfold attemptsOf. fold (limit p).
  destruct (instances s !! g) as [inst|] eqn:E.
  - destruct (ord_inst p s H g inst E) as (A1 & A2 & A3 & _). cbn.
    split; [|done].
    destruct (decide (importsOf g s = attempts inst + 1)) as [Hq|Hq].
    + specialize (A3 Hq). lia.
    + lia.
  - destruct (ord_none p s H g E) as [-> _]. cbn.
    pose proof (limit_pos p). lia.
Qed.

(** ** Who settles a handle *)

Lemma mounted_memoLazyComponent p s :
  isMountedRef (memoLazyComponent p s) = isMountedRef s.
Proof. unfold memoLazyComponent, log. by split_cases. Qed.

(** In a mounted component, [tryImport] of an instance whose flag is
    clear calls the loader. *)
Lemma tryImport_mounted g s inst :
  isMountedRef s = true -> instances s !! g = Some inst ->
  currentAttemptCancelled inst = false ->
  tryImport g s =
  emit (EImport g (calls s))
    (setCalls (S (calls s)) (setImports (<[calls s := g]> (imports s)) s)).
Proof. intros Hm Hg Hc. unfold tryImport. by rewrite Hg, Hc, Hm. Qed.

Lemma executor_mounted g s :
  isMountedRef s = true ->
  executor g s =
  emit (EImport g (calls s))
    (setCalls (S (calls s))
       (setImports (<[calls s := g]> (imports s))
          (setInstances (<[g := mkInstance 0 false pending]> (instances s)) s))).
Proof.
  intros Hm. unfold executor.
  rewrite (tryImport_mounted g _ (mkInstance 0 false pending)); try done.
  cbn [instances setInstances]. by rewrite lookup_insert_eq.
Qed.

Lemma Unsettled_calm s s' : Calm s s' -> Unsettled s s'.
Proof.
  intros (_ & _ & _ & _ & Hx & _ & Hs). split; [done|].
  intros g _. unfold handleOf. by rewrite Hx.
Qed.

Lemma Unsettled_trans s1 s2 s3 :
  (forall g, is_Some (instances s1 !! g) -> is_Some (instances s2 !! g)) ->
  Unsettled s1 s2 -> Unsettled s2 s3 -> Unsettled s1 s3.
Proof.
  intros Hsub [A1 A2] [B1 B2]. split.
  - intros g. by rewrite B1.
  - intros g Hg. rewrite B2 by by apply Hsub. by apply A2.
Qed.

Lemma Unsettled_issue g s :
  Unsettled s
    (emit (EImport g (calls s))
       (setCalls (S (calls s)) (setImports (<[calls s := g]> (imports s)) s))).
Proof.
  split; [|done]. intros g'. rewrite settlesOf_emit. cbn [isSettleOf].
  unfold settlesOf. cbn [trace setCalls setImports]. lia.
Qed.

Lemma Unsettled_render p s :
  flagsClear s -> Unsettled s (render p s).
Proof.
  intros Hf. unfold render.
  destruct (isMountedRef s) eqn:Hm; cbn [negb]; [|by apply Unsettled_calm, Calm_refl].
  set (s1 := memoLazyComponent p s).
  assert (Calm s s1) as C1 by apply Calm_memoLazyComponent.
  pose proof C1 as (_ & _ & _ & _ & Hx1 & _ & _).
  assert (isMountedRef s1 = true) as Hm1
    by (unfold s1; by rewrite mounted_memoLazyComponent).
  set (s2 := renderChildren p s1).
  assert (Unsettled s s2 /\
          forall g, is_Some (instances s !! g) -> is_Some (instances s2 !! g))
    as [U2 Hsub].
  { unfold s2, renderChildren.
    destruct (boundaryError s1);
      [split; [by apply Unsettled_calm | by rewrite <- Hx1]|].
    destruct (instances s1 !! retryKey s1) as [inst|] eqn:E.
    { assert (Calm s (match handle inst with
                      | rejected err => capture p err lazyStack s1
                      | _ => s1
                      end)) as Cc.
      { destruct (handle inst); [exact C1 | exact C1 |].
        eapply Calm_trans; [exact C1 | apply Calm_capture]. }
      split; [by apply Unsettled_calm|].
      destruct Cc as (_ & _ & _ & _ & -> & _). done. }
    rewrite executor_mounted by done. split.
    - split.
      + intros g. rewrite settlesOf_emit. cbn [isSettleOf].
        destruct C1 as (_ & _ & _ & _ & _ & _ & <-).
        unfold settlesOf. cbn [trace setCalls setImports setInstances]. lia.
      + intros g Hg. unfold handleOf.
        cbn [instances emit setCalls setImports setInstances].
        rewrite lookup_insert_ne; [by rewrite Hx1|].
        intros <-. rewrite <- Hx1, E in Hg. by destruct Hg.
    - intros g Hg. cbn [instances emit setCalls setImports setInstances].
      rewrite lookup_insert_is_Some. rewrite Hx1.
      destruct (decide (retryKey s1 = g)); [by left | by right]. }
  set (s3 := commitRetryKeyEffect (renderedKey s) s2).
  assert (Calm s2 s3) as C3 by apply Calm_commitRetryKeyEffect.
  apply (Unsettled_trans s s2); [done | done |].
  apply Unsettled_calm.
  eapply Calm_trans; [exact C3|]. by repeat split.
Qed.

Lemma Calm_expire t s :
  Calm s (setTimers (timersRef s ∖ {[t]}) (setTimeouts (delete t (timeouts s)) s)).
Proof.
  repeat split; try done. intros t' x. cbn [timeouts setTimers setTimeouts].
  rewrite lookup_delete_Some. by intros [_ ?].
Qed.

Lemma Unsettled_fireTimer t s : flagsClear s -> Unsettled s (fireTimer t s).
Proof.
  intros Hf. unfold fireTimer.
  destruct (timeouts s !! t) as [[g d]|]; [|by apply Unsettled_calm, Calm_refl].
  cbn [isMountedRef setTimers setTimeouts].
  destruct (isMountedRef s) eqn:Hm;
    [|exact (Unsettled_calm _ _ (Calm_expire t s))].
  destruct (instances s !! g) as [inst|] eqn:Hg.
  - rewrite (tryImport_mounted g _ inst); try done; [|by apply (Hf g)].
    split; [|done]. intros g'. rewrite settlesOf_emit. cbn [isSettleOf].
    unfold settlesOf. cbn [trace setCalls setImports setTimers setTimeouts].
    lia.
  - unfold tryImport. cbn [instances setTimers setTimeouts]. rewrite Hg.
    exact (Unsettled_calm _ _ (Calm_expire t s)).
Qed.

(** X8.  Only the outcome of an import settles a handle.  In a
    reachable state a render, a firing timer, a capture, a reset, the
    reset trigger and the unmount call neither [resolve] nor [reject]
    and leave every existing handle as it is; so the guard at the top
    of [tryImport] (lines 129-132) never rejects. *)
Theorem X8_only_outcomes_settle p evs ev g :
  (forall call, ev <> SettleImport call) ->
  let s := run p evs initialState in
  settlesOf g (step p ev s) = settlesOf g s /\
  (is_Some (instances s !! g) -> handleOf g (step p ev s) = handleOf g s).
Proof.
  intros Hev s.
  assert (flagsClear s) as Hf by apply (ord_flags p), Orderly_reachable.
  assert (Unsettled s (step p ev s)) as [U1 U2];
    [|split; [apply U1 | apply U2]].
  destruct ev; cbn [step].
  - by apply Unsettled_render.
  - by destruct (Hev call).
  - by apply Unsettled_fireTimer.
  - apply Unsettled_calm, Calm_capture.
  - apply Unsettled_calm, Calm_handleReset.
  - apply Unsettled_calm, Calm_handleRetry.
  - apply Unsettled_calm, Calm_unmount.
Qed.

Lemma X8_witness :
  let s := run failingLoader [Render; SettleImport 0%nat] initialState in
  timeouts s !! 0%nat = Some (0, 1000) /\
  settlesOf 0 (step failingLoader (FireTimer 0) s) = settlesOf 0 s /\
  handleOf 0 (step failingLoader (FireTimer 0) s) = Some pending.
Proof.
  intros s. split; [by vm_compute|].
  destruct (X8_only_outcomes_settle failingLoader
              [Render; SettleImport 0%nat] (FireTimer 0) 0) as [H1 H2];
    [discriminate|].
  split; [exact H1|].
  etransitivity; [apply H2; vm_compute; by eexists | by vm_compute].
Defined.

(** ** Keys and [onRetry] *)

Lemma handleRetry_keys p s :
  retryKey (handleRetry p s) =
    retryKey s + match boundaryError s with Some _ => 2 | None => 1 end /\
  mountKey (handleRetry p s) =
    mountKey s + match boundaryError s with Some _ => 2 | None => 1 end /\
  boundaryError (handleRetry p s) = None.
Proof.
  unfold handleRetry, resetErrorBoundary.
  destruct (handleReset_frame p s) as (_ & _ & _ & _ & -> & _).
  destruct (handleReset_keys p s) as [K1 K2].
  destruct (boundaryError s) eqn:Hb.
  - change (retryKey (setBoundaryError ?k ?x)) with (retryKey x).
    change (mountKey (setBoundaryError ?k ?x)) with (mountKey x).
    destruct (handleReset_keys p (handleReset p s)) as [-> ->].
    rewrite K1, K2. repeat split; lia.
  - rewrite K1, K2.
    destruct (handleReset_frame p s) as (_ & _ & _ & _ & -> & _).
    by rewrite Hb.
Qed.

Lemma KeyCount_same p s s' :
  keysOf s' = keysOf s ->
  count isOnRetry (trace s') = count isOnRetry (trace s) ->
  KeyCount p s -> KeyCount p s'.
Proof. unfold KeyCount, keysOf. intros [= _ ->] ->. done. Qed.

Lemma KeyCount_step p ev s : KeyCount p s -> KeyCount p (step p ev s).
Proof.
  intros H.
  pose proof (count_silent_step p isOnRetry notCallback_onRetry) as Hsil.
  destruct ev.
  - apply (KeyCount_same p s); [apply keys_render | | done].
    cbn [step]. rewrite (count_render p isOnRetry notCallback_onRetry).
    cbn [isOnRetry]. destruct (raised s), (onError p); lia.
  - apply (KeyCount_same p s); [apply keys_settleImport | by apply Hsil | done].
  - apply (KeyCount_same p s); [apply keys_fireTimer | by apply Hsil | done].
  - apply (KeyCount_same p s); [apply keys_capture | | done].
    cbn [step]. rewrite (count_capture p isOnRetry notCallback_onRetry).
    cbn [isOnRetry]. destruct (onError p); lia.
  - unfold KeyCount in *. cbn [step].
    rewrite (count_handleReset p isOnRetry notCallback_onRetry).
    destruct (handleReset_keys p s) as [-> _]. cbn [isOnRetry].
    destruct (onRetry p); lia.
  - unfold KeyCount in *. cbn [step].
    rewrite (count_handleRetry p isOnRetry notCallback_onRetry).
    destruct (handleRetry_keys p s) as [-> _]. cbn [isOnRetry].
    destruct (onRetry p), (boundaryError s); lia.
  - apply (KeyCount_same p s); [apply keys_unmount | by apply Hsil | done].
Qed.

(** X9.  With an [onRetry] callback, the number of its calls so far is
    the current [retryKey]: one call for each increment of the keys.
    Without the callback there is no call. *)
Theorem X9_onRetry_counts_resets p evs :
  let s := run p evs initialState in
  Z.of_nat (count isOnRetry (trace s)) = if onRetry p then retryKey s else 0.
Proof.
  cbv zeta. change (KeyCount p (run p evs initialState)).
  assert (forall s, KeyCount p s -> KeyCount p (run p evs s)) as H.
  { induction evs as [|ev evs IH]; intros s Hs; [done|].
    cbn [run foldl]. apply IH. by apply KeyCount_step. }
  apply H. unfold KeyCount. cbn. by destruct (onRetry p).
Qed.

(** ** A reset trigger starts a fresh loader *)

Lemma render_fresh p x :
  isMountedRef x = true -> boundaryError x = None ->
  instances x !! retryKey x = None ->
  instances (render p x) =
    <[retryKey x := mkInstance 0 false pending]> (instances x) /\
  imports (render p x) = <[calls x := retryKey x]> (imports x) /\
  calls (render p x) = S (calls x) /\
  retryKey (render p x) = retryKey x /\
  renderedKey (render p x) = Some (retryKey x) /\
  isMountedRef (render p x) = true /\
  (forall g, importsOf g (render p x) =
             importsOf g x + if decide (g = retryKey x) then 1 else 0) /\
  (forall t v, timeouts (render p x) !! t = Some v -> timeouts x !! t = Some v).
Proof.
  intros Hm Hb Hi. unfold render. rewrite Hm. cbn [negb].
  set (x1 := memoLazyComponent p x).
  assert (Calm x x1) as C1 by apply Calm_memoLazyComponent.
  pose proof C1 as (A1 & A2 & A3 & A4 & A5 & A6 & A7).
  assert (isMountedRef x1 = true /\ boundaryError x1 = None /\
          retryKey x1 = retryKey x) as (Hm1 & Hb1 & Hk1).
  { unfold x1, memoLazyComponent, log. by split_cases. }
  set (x2 := renderChildren p x1).
  assert (x2 =
    emit (EImport (retryKey x) (calls x))
      (setCalls (S (calls x))
         (setImports (<[calls x := retryKey x]> (imports x))
            (setInstances
               (<[retryKey x := mkInstance 0 false pending]> (instances x))
               x1)))) as E2.
  { unfold x2, renderChildren. rewrite Hb1, Hk1, A5, Hi.
    rewrite executor_mounted by done. by rewrite A1, A2, A5. }
  set (x3 := commitRetryKeyEffect (renderedKey x) x2).
  assert (Calm x2 x3) as C3 by apply Calm_commitRetryKeyEffect.
  pose proof C3 as (B1 & B2 & B3 & B4 & B5 & B6 & B7).
  assert (retryKey x3 = retryKey x2 /\ isMountedRef x3 = isMountedRef x2)
    as [Hk3 Hm3].
  { unfold x3, commitRetryKeyEffect. destruct (renderedKey x); [|done].
    destruct (decide _); [done | by rewrite clearAllTimers_eq]. }
  change (instances (setRenderedKey ?k ?y)) with (instances y).
  change (imports (setRenderedKey ?k ?y)) with (imports y).
  change (calls (setRenderedKey ?k ?y)) with (calls y).
  change (retryKey (setRenderedKey ?k ?y)) with (retryKey y).
  change (isMountedRef (setRenderedKey ?k ?y)) with (isMountedRef y).
  change (renderedKey (setRenderedKey ?k ?y)) with k.
  rewrite B5, B1, B2, Hk3, Hm3, E2.
  cbn [instances imports calls retryKey isMountedRef emit setCalls setImports
       setInstances].
  rewrite Hk1, Hm1. do 6 (split; [reflexivity|]). split.
  - intros g. change (importsOf g (setRenderedKey ?k ?y)) with (importsOf g y).
    rewrite B6, E2, importsOf_emit. cbn [isImportOf].
    change (importsOf g (setCalls ?a (setImports ?b (setInstances ?c ?y))))
      with (importsOf g y).
    rewrite A6. destruct (decide (g = retryKey x)) as [->|?].
    + by rewrite bool_decide_eq_true_2.
    + by rewrite bool_decide_eq_false_2.
  - intros t v. change (timeouts (setRenderedKey ?k ?y)) with (timeouts y).
    intros H. apply B3 in H. rewrite E2 in H. by apply A3.
Qed.

(** X10.  The reset trigger starts a fresh loader.  In a mounted
    component, the reset trigger of the error view followed by a
    render moves [retryKey] by two when the boundary holds an error
    (by one otherwise) to a key that had no instance; the render
    creates the instance of that key with [attempts = 0] and a pending
    handle, calls the loader once for it, and leaves no timeout and no
    error in the boundary. *)
Theorem X10_retry_starts_afresh p evs :
  let s := run p evs initialState in
  isMountedRef s = true ->
  let s' := render p (handleRetry p s) in
  let k := retryKey s' in
  k = retryKey s + match boundaryError s with Some _ => 2 | None => 1 end /\
  instances s !! k = None /\
  instances s' !! k = Some (mkInstance 0 false pending) /\
  imports s' !! calls s = Some k /\
  calls s' = S (calls s) /\
  importsOf k s' = 1 /\
  timeouts s' = ∅ /\
  boundaryError s' = None.
Proof.
  intros s Hm. cbv zeta.
  set (x := handleRetry p s).
  destruct (handleRetry_keys p s) as (K1 & _ & Hb). fold x in K1, Hb.
  destruct (KeysInv_run p evs) as (_ & H0 & Hgen). fold s in H0, Hgen.
  assert (instances x = instances s) as Hx by apply handleRetry_instances.
  assert (instances s !! retryKey x = None) as Hnone.
  { destruct (instances s !! retryKey x) eqn:E; [|done].
    assert (exists_ (retryKey x) s) as Hex by (unfold exists_; by rewrite E).
    apply Hgen in Hex. rewrite K1 in Hex. destruct (boundaryError s); lia. }
  assert (Calm s x) as Cx by apply Calm_handleRetry.
  pose proof Cx as (A1 & A2 & A3 & A4 & A5 & A6 & A7).
  assert (isMountedRef x = true) as Hmx.
  { unfold x, handleRetry, resetErrorBoundary.
    destruct (handleReset_frame p s) as (F1 & _).
    destruct (handleReset_frame p (handleReset p s)) as (F2 & _).
    destruct (boundaryError (handleReset p s)); [|congruence].
    change (isMountedRef (setBoundaryError ?k ?y)) with (isMountedRef y).
    congruence. }
  assert (timeouts x = ∅) as Htx.
  { assert (Tracked s) as Ht by apply Tracked_run.
    unfold x, handleRetry, resetErrorBoundary.
    assert (timeouts (handleReset p s) = ∅) as H1
      by (rewrite handleReset_timeouts; by apply Tracked_cleared).
    destruct (boundaryError (handleReset p s)); [|done].
    change (timeouts (setBoundaryError ?k ?y)) with (timeouts y).
    rewrite handleReset_timeouts, clearAllTimers_eq. cbn [timeouts].
    rewrite H1. apply deleteAll_empty. }
  destruct (render_fresh p x) as (R1 & R2 & R3 & R4 & R5 & R6 & R7 & R8);
    [done | done | by rewrite Hx |].
  assert (boundaryError (render p x) = None) as Hbs.
  { rewrite render_boundary. unfold raised, handleOf.
    by rewrite Hmx, Hb, Hx, Hnone. }
  rewrite R4. split; [exact K1|]. split; [exact Hnone|].
  split; [rewrite R1; apply lookup_insert_eq|].
  split; [rewrite R2, <- A2; apply lookup_insert_eq|].
  split; [by rewrite R3, A2|].
  split.
  - rewrite R7, A6, decide_True by done.
    destruct (ord_none p s (Orderly_reachable p evs) (retryKey x) Hnone)
      as [-> _]. done.
  - split; [|exact Hbs]. apply map_eq. intros t. rewrite lookup_empty.
    destruct (timeouts (render p x) !! t) as [v|] eqn:E; [|done].
    apply R8 in E. by rewrite Htx, lookup_empty in E.
Qed.

Lemma X10_witness :
  isMountedRef errorShown = true /\
  retryKey (render oneTry (handleRetry oneTry errorShown)) = retryKey errorShown + 2 /\
  instances (render oneTry (handleRetry oneTry errorShown)) !! 2
    = Some (mkInstance 0 false pending).
Proof.
  split; [by vm_compute|].
  destruct (X10_retry_starts_afresh oneTry
              [Render; SettleImport 0%nat; Capture loadFailed "stack"])
    as (H1 & _ & H3 & _); [by vm_compute|].
  split; [exact H1|].
  etransitivity; [|exact H3]. by vm_compute.
Defined.

(** ** The current instance is never left waiting for nothing *)








Lemma render_blocked p s :
  boundaryError s <> None \/ is_Some (instances s !! retryKey s) ->
  instances (render p s) = instances s /\
  imports (render p s) = imports s /\
  forall t v, timeouts (render p s) !! t = Some v -> timeouts s !! t = Some v.
Proof.
  intros Hb. unfold render. destruct (negb _); [done|].
  set (s1 := memoLazyComponent p s).
  assert (Calm s s1) as C1 by apply Calm_memoLazyComponent.
  pose proof C1 as (A1 & A2 & A3 & A4 & A5 & A6 & A7).
  assert (boundaryError s1 = boundaryError s /\ retryKey s1 = retryKey s)
    as [Hb1 Hk1].
  { unfold s1, memoLazyComponent, log. by split_cases. }
  assert (Calm s1 (renderChildren p s1)) as C2.
  { unfold renderChildren. rewrite Hb1, Hk1, A5.
    destruct (boundaryError s); [apply Calm_refl|].
    destruct (instances s !! retryKey s) as [inst|].
    - destruct (handle inst); try apply Calm_refl. apply Calm_capture.
    - destruct Hb as [?|[? ?]]; done. }
  assert (Calm s (setRenderedKey (Some (retryKey s))
                    (commitRetryKeyEffect (renderedKey s)
                       (renderChildren p s1)))) as (B1 & B2 & B3 & B4 & B5 & _).
  { eapply Calm_trans; [exact C1|]. eapply Calm_trans; [exact C2|].
    eapply Calm_trans; [apply Calm_commitRetryKeyEffect|]. by repeat split. }
  done.
Qed.










(** ** The delay of a pending retry *)

Lemma Paced_frame p s s' :
  (forall t x, timeouts s' !! t = Some x -> timeouts s !! t = Some x) ->
  (forall g n, attemptsOf g s = Some n -> attemptsOf g s' = Some n) ->
  Paced p s -> Paced p s'.
Proof.
  intros Ht Ha Hp t g d H. apply Ht in H.
  destruct (Hp t g d H) as (n & A & B & C). exists n. split; [by apply Ha | done].
Qed.

Lemma Paced_calm p s s' : Calm s s' -> Paced p s -> Paced p s'.
Proof.
  intros (_ & _ & Ht & _ & Hx & _). apply Paced_frame; [done|].
  intros g n. unfold attemptsOf. by rewrite Hx.
Qed.

Lemma attempts_tryImport g gen s :
  attemptsOf gen (tryImport g s) = attemptsOf gen s.
Proof.
  unfold tryImport. destruct (instances s !! g) as [inst|] eqn:Hg; [|done].
  destruct (_ || _); [|done].
  unfold rejectHandle, updateHandle, attemptsOf.
  cbn [instances emit setInstances].
  destruct (decide (gen = g)) as [->|Hne].
  - rewrite lookup_alter_eq, Hg. done.
  - by rewrite lookup_alter_ne.
Qed.

Lemma Paced_fireTimer p t s : Paced p s -> Paced p (fireTimer t s).
Proof.
  intros Hp. unfold fireTimer.
  destruct (timeouts s !! t) as [[g d]|] eqn:Ht; [|done].
  set (s1 := setTimers _ _).
  assert (Paced p s1) as H1.
  { apply (Paced_frame p s); [|done|done].
    intros t' x. unfold s1. cbn [timeouts setTimers setTimeouts].
    rewrite lookup_delete_Some. by intros [_ ?]. }
  destruct (isMountedRef s1); [|done].
  apply (Paced_frame p s1); [| |done].
  - intros t' x. unfold tryImport.
    destruct (instances s1 !! g); [|done]. by destruct (_ || _).
  - intros g' n. by rewrite attempts_tryImport.
Qed.

Lemma Paced_settleImport p c s :
  Orderly p s -> Paced p s -> Paced p (settleImport p c s).
Proof.
  intros Ho Hp. unfold settleImport.
  destruct (imports s !! c) as [g|] eqn:Hc; [|done].
  destruct (Orderly_drop_import p s c g Ho Hc)
    as (_ & [_ I2] & ig & Hg & Hpend & Hn & Hl).
  destruct (ord_inst p s Ho g ig Hg) as ([A0 _] & _).
  set (s1 := setImports (delete c (imports s)) s) in *.
  assert (Paced p s1) as H1 by exact Hp.
  assert (forall f e, Paced p (emit e (updateHandle f g s1))) as Hsettle.
  { intros f e. apply (Paced_frame p s1); [done | | done].
    intros g' n. unfold attemptsOf, updateHandle.
    cbn [instances emit setInstances].
    destruct (decide (g' = g)) as [->|Hne].
    - rewrite lookup_alter_eq. change (instances s1) with (instances s).
      rewrite Hg. done.
    - by rewrite lookup_alter_ne. }
  destruct (importFn p c) as [m|err].
  - unfold onImportFulfilled. change (instances s1) with (instances s).
    rewrite Hg. destruct (_ && _); [apply Hsettle | done].
  - unfold onImportRejected. change (instances s1) with (instances s).
    rewrite Hg. destruct (_ || _); [apply Hsettle|].
    set (n := attempts ig + 1).
    set (s2 := setInstances _ s1).
    assert (Paced p s2) as H2.
    { intros t g' d Ht. change (timeouts s !! t = Some (g', d)) in Ht.
      assert (g' <> g) as Hne by (intros ->; by apply (I2 t d)).
      destruct (Hp t g' d Ht) as (n' & B1 & B2 & B3). exists n'.
      split; [|done]. unfold attemptsOf, s2. cbn [instances setInstances].
      by rewrite lookup_insert_ne. }
    assert (attemptsOf g s2 = Some n) as Hat.
    { unfold attemptsOf, s2. cbn [instances setInstances].
      by rewrite lookup_insert_eq. }
    destruct err as [|err]; [exact H2|].
    set (s3 := log p LInfo (LogAttemptFailed n (retries p) (message err)) s2).
    assert (Calm s2 s3) as C3 by apply Calm_log.
    assert (Paced p s3) as H3 by by apply (Paced_calm p s2).
    destruct (Z.geb_spec n (retries p)) as [Hge|Hlt].
    + apply (Paced_frame p s3); [done | | done].
      intros g' n'. unfold attemptsOf, rejectHandle, updateHandle.
      cbn [instances emit setInstances].
      destruct (decide (g' = g)) as [->|Hne].
      * rewrite lookup_alter_eq.
        destruct (instances s3 !! g); cbn; [|done]. done.
      * by rewrite lookup_alter_ne.
    + set (s4 := log p LInfo (LogRetryingIn (retryDelay p * n)) s3).
      assert (Calm s3 s4) as C4 by apply Calm_log.
      assert (Paced p s4) as H4 by by apply (Paced_calm p s3).
      assert (attemptsOf g s4 = Some n) as Hat4.
      { destruct C3 as (_ & _ & _ & _ & X3 & _).
        destruct C4 as (_ & _ & _ & _ & X4 & _).
        unfold attemptsOf in *. by rewrite X4, X3. }
      unfold createSafeTimeout. destruct (negb _); [done|].
      intros t g' d.
      cbn [timeouts emit setTimers setNextTimerId setTimeouts].
      change (attemptsOf g'
                (setTimers ?a (emit ?b (setNextTimerId ?c (setTimeouts ?e s4)))))
        with (attemptsOf g' s4).
      destruct (decide (nextTimerId s4 = t)) as [<-|Hne].
      * rewrite lookup_insert_eq. intros [= <- <-]. exists n.
        split; [done|]. split; [done|]. unfold n. lia.
      * rewrite lookup_insert_ne by done. apply H4.
Qed.

Lemma Paced_render p s : Paced p s -> Paced p (render p s).
Proof.
  intros Hp.
  destruct (isMountedRef s) eqn:Hm;
    [|unfold render; by rewrite Hm].
  destruct (boundaryError s) as [e|] eqn:Hb.
  - destruct (render_blocked p s) as (R1 & _ & R3); [left; congruence|].
    apply (Paced_frame p s); [done | | done].
    intros g n. unfold attemptsOf. by rewrite R1.
  - destruct (instances s !! retryKey s) as [i|] eqn:Hi.
    + destruct (render_blocked p s) as (R1 & _ & R3);
        [right; by rewrite Hi|].
      apply (Paced_frame p s); [done | | done].
      intros g n. unfold attemptsOf. by rewrite R1.
    + destruct (render_fresh p s Hm Hb Hi) as (R1 & _ & _ & _ & _ & _ & _ & R8).
      apply (Paced_frame p s); [done | | done].
      intros g n. unfold attemptsOf. rewrite R1.
      destruct (decide (g = retryKey s)) as [->|Hne].
      * by rewrite Hi.
      * by rewrite lookup_insert_ne.
Qed.

Lemma Paced_step p ev s : Orderly p s -> Paced p s -> Paced p (step p ev s).
Proof.
  intros Ho Hp. destruct ev; cbn [step].
  - by apply Paced_render.
  - by apply Paced_settleImport.
  - by apply Paced_fireTimer.
  - apply (Paced_calm p s); [apply Calm_capture | done].
  - apply (Paced_calm p s); [apply Calm_handleReset | done].
  - apply (Paced_calm p s); [apply Calm_handleRetry | done].
  - apply (Paced_calm p s); [apply Calm_unmount | done].
Qed.

Lemma Paced_run p evs : Paced p (run p evs initialState).
Proof.
  assert (forall s, Orderly p s -> Paced p s -> Paced p (run p evs s)) as H.
  { induction evs as [|ev evs IH]; intros s Ho Hp; [done|].
    cbn [run foldl]. apply IH; [by apply Orderly_step | by apply Paced_step]. }
  apply H; [apply Orderly_initial|].
  intros t g d. cbn. by rewrite lookup_empty.
Qed.

(** X12.  The delay of every pending retry, of any instance and under
    any schedule, is [retryDelay] times the number of attempts its
    instance has failed, and that number is at least 1 and below
    [retries]. *)
Theorem X12_delay_follows_attempts p evs timerId gen delay :
  let s := run p evs initialState in
  timeouts s !! timerId = Some (gen, delay) ->
  exists n,
    attemptsOf gen s = Some n /\ delay = retryDelay p * n /\
    1 <= n < retries p.
Proof. intros s. apply Paced_run. Qed.

Lemma X12_witness :
  let s :=
    run failingLoader
      [Render; SettleImport 0%nat; FireTimer 0; SettleImport 1%nat]
      initialState in
  timeouts s !! 1%nat = Some (0, 2000) /\
  exists n,
    attemptsOf 0 s = Some n /\ 2000 = retryDelay failingLoader * n /\
    1 <= n < retries failingLoader.
Proof.
  intros s.
  assert (timeouts s !! 1%nat = Some (0, 2000)) as Ht by by vm_compute.
  split; [exact Ht|].
  exact (X12_delay_follows_attempts failingLoader
           [Render; SettleImport 0%nat; FireTimer 0; SettleImport 1%nat]
           1%nat 0 2000 Ht).
Defined.

(** ** What an import's outcome does *)

(** X13.  What the outcome of an import does in a mounted component,
    whichever instance made the call.  The handle of that instance is
    still pending.  A success resolves it with the loaded module.  A
    rejection with an error object is counted and then, if
    [attempts >= retries], rejects the handle with that error, and
    otherwise leaves it pending and schedules one retry after
    [retryDelay * attempts].  A rejection with [undefined] or [null] is
    counted and nothing more: the handler throws at [error.message],
    the handle stays pending and no retry is scheduled. *)
Theorem X13_outcome_of_an_import p evs call gen :
  let s := run p evs initialState in
  isMountedRef s = true ->
  imports s !! call = Some gen ->
  let s' := settleImport p call s in
  exists n,
    attemptsOf gen s = Some n /\
    handleOf gen s = Some pending /\
    match importFn p call with
    | Fulfilled module =>
        handleOf gen s' = Some (resolved module) /\
        attemptsOf gen s' = Some n /\
        timeouts s' = timeouts s
    | Failed (Thrown err) =>
        attemptsOf gen s' = Some (n + 1) /\
        if n + 1 >=? retries p
        then handleOf gen s' = Some (rejected err) /\
             timeouts s' = timeouts s
        else handleOf gen s' = Some pending /\
             timeouts s' =
               <[nextTimerId s := (gen, retryDelay p * (n + 1))]> (timeouts s)
    | Failed Nullish =>
        attemptsOf gen s' = Some (n + 1) /\
        handleOf gen s' = Some pending /\
        timeouts s' = timeouts s /\
        imports s' = delete call (imports s) /\
        trace s' = trace s ++ [EUncaughtTypeError gen]
    end.
Proof.
  intros s Hm Hc. cbv zeta.
  pose proof (Orderly_reachable p evs) as Ho. fold s in Ho.
  destruct (ord_import p s Ho call gen Hc) as (_ & ig & Hg & Hp & _).
  pose proof (ord_flags p s Ho gen ig Hg) as Hf.
  exists (attempts ig). unfold attemptsOf, handleOf. rewrite Hg.
  cbn [fmap option_fmap option_map].
  split; [done|]. split; [by rewrite Hp|].
  unfold settleImport. rewrite Hc.
  destruct (importFn p call) as [m|[|err]].
  - unfold onImportFulfilled. cbn [instances setImports isMountedRef].
    rewrite Hg, Hf, Hm. cbn [negb andb].
    unfold resolveHandle, updateHandle.
    cbn [instances timeouts emit setInstances setImports].
    rewrite lookup_alter_eq, Hg. cbn. by rewrite Hp.
  - unfold onImportRejected. cbn [instances setImports isMountedRef].
    rewrite Hg, Hf, Hm. cbn [negb orb].
    cbn [imports instances timeouts trace emit setInstances setImports].
    rewrite lookup_insert_eq. cbn. by rewrite Hp.
  - unfold onImportRejected. cbn [instances setImports isMountedRef].
    rewrite Hg, Hf, Hm. cbn [negb orb].
    destruct (_ >=? _).
    + unfold rejectHandle, updateHandle, log.
      destruct (verbose p);
        cbn [instances timeouts emit setInstances setImports];
        rewrite lookup_alter_eq, lookup_insert_eq; cbn; by rewrite Hp.
    + unfold createSafeTimeout, log.
      destruct (verbose p);
        cbn [imports instances timeouts nextTimerId isMountedRef emit
             setInstances setImports setTimers setNextTimerId setTimeouts];
        rewrite Hm; cbn [negb];
        cbn [imports instances timeouts nextTimerId isMountedRef emit
             setInstances setImports setTimers setNextTimerId setTimeouts];
        rewrite lookup_insert_eq; cbn; by rewrite Hp.
Qed.

Lemma X13_witness :
  let s := run threeTriesUndefined [Render] initialState in
  imports s !! 0%nat = Some 0 /\
  exists n,
    attemptsOf 0 s = Some n /\
    handleOf 0 s = Some pending /\
    attemptsOf 0 (settleImport threeTriesUndefined 0 s) = Some (n + 1) /\
    handleOf 0 (settleImport threeTriesUndefined 0 s) = Some pending /\
    timeouts (settleImport threeTriesUndefined 0 s) = timeouts s.
Proof.
  intros s.
  assert (imports s !! 0%nat = Some 0) as Hc by by vm_compute.
  split; [exact Hc|].
  destruct (X13_outcome_of_an_import threeTriesUndefined [Render] 0%nat 0)
    as (n & H1 & H2 & H3 & H4 & H5 & _); [by vm_compute | exact Hc |].
  exists n. do 4 (split; [assumption|]). exact H5.
Defined.

(** ** Defaults and the built-in error view *)

Lemma logs_drive p fuel s :
  verbose p = false -> logs (drive p fuel s) = logs s.
Proof.
  intros Hv. revert s. induction fuel as [|fuel IH]; intros s; [done|].
  cbn [drive]. destruct (nextEvent s) as [ev|]; [|done].
  rewrite IH. by apply logs_step.
Qed.

(** X14.  Defaults (lines 47-57).  A caller that leaves out [retries],
    [retryDelay] and [verbose] gets 3, 1000 and false: a loader that
    rejects every call with an error object is called three times,
    after delays of 1000 and 2000, nothing is written to the console,
    and the handle is rejected with the error of the third call. *)
Theorem X14_defaults given fuel :
  given_retries given = None -> given_retryDelay given = None ->
  given_verbose given = None ->
  (forall call, exists err, given_importFn given call = Failed (Thrown err)) ->
  (6 <= fuel)%nat ->
  let p := destructure given in
  let s := drive p fuel (render p initialState) in
  calls s = 3%nat /\
  delays (trace s) = [1000; 2000] /\
  count isLog (trace s) = 0%nat /\
  (exists err,
     given_importFn given 2 = Failed (Thrown err) /\
     handleOf 0 s = Some (rejected err)) /\
  nextEvent s = None.
Proof.
  intros Hr Hd Hv Hfails Hfuel p s.
  assert (retries p = 3 /\ retryDelay p = 1000 /\ verbose p = false /\
          importFn p = given_importFn given) as (Er & Ed & Ev & Ei).
  { unfold p, destructure. cbn. by rewrite Hr, Hd, Hv. }
  destruct (Hfails 2%nat) as [err Herr].
  assert (Finished p 2 (rejected err) s) as Hs.
  { apply drive_from_mount.
    - intros i Hi. rewrite Ei, Er. split; [apply Hfails | lia].
    - intros s0 Hs0. apply attempt_exhausts; [done | by rewrite Ei | lia].
    - lia. }
  destruct Hs as [H1 H2 H3 H4 H5 H6 H7 H8].
  split; [done|]. split.
  - rewrite H7. unfold linearDelays. cbn [seq map]. rewrite Ed. reflexivity.
  - split.
    + change (logs s = 0%nat). unfold s. rewrite logs_drive by done.
      unfold render, commitRetryKeyEffect, renderChildren, memoLazyComponent,
        log.
      rewrite Ev. by vm_compute.
    + split; [by exists err|]. by apply nextEvent_idle.
Qed.

Lemma X14_witness :
  let p := destructure (onlyImportFn failing) in
  calls (drive p 6 (render p initialState)) = 3%nat /\
  delays (trace (drive p 6 (render p initialState))) = [1000; 2000].
Proof.
  cbv zeta.
  destruct (X14_defaults (onlyImportFn failing) 6) as (H1 & H2 & _);
    [reflexivity | reflexivity | reflexivity
    | intros call; by exists loadFailed | lia |].
  split; [exact H1 | exact H2].
Defined.

(** X15.  The built-in error view.  Whenever the error view is an
    element of [DefaultErrorComponent], it shows its heading, a text
    that is never empty (the error's message, or the stock sentence
    when the message is empty) and a Retry button whose click runs
    [handleRetry]. *)
Theorem X15_default_error_view p err s element :
  ErrorFallback p err = VElement element ->
  etype element = DefaultErrorComponent ->
  exists view,
    mountErrorView (ErrorFallback p err) = Some view /\
    heading view = "Failed to load component"%string /\
    button view = "Retry"%string /\
    text view <> ""%string /\
    text view =
      (if decide (message err = ""%string)
       then "An unexpected error occurred"%string else message err) /\
    invoke p (onClick view) s = handleRetry p s.
Proof.
  intros He Ht.
  assert (getProp "error" (eprops element) = Some (PError err) /\
          getProp "resetErrorBoundary" (eprops element)
            = Some (PCallback handleRetryCb)) as [G1 G2].
  { unfold ErrorFallback in He.
    destruct (errorComponent p) as [|e'|c'|v']; try discriminate;
      injection He as <-; try done.
    cbn. split.
    - rewrite getProp_setProp_ne by done. apply getProp_setProp.
    - apply getProp_setProp. }
  exists (renderDefaultErrorComponent err handleRetryCb).
  rewrite He. unfold mountErrorView. rewrite Ht, G1, G2.
  split; [done|]. split; [done|]. split; [done|].
  cbn [text renderDefaultErrorComponent onClick invoke].
  destruct (String.eqb_spec (message err) "") as [E|E].
  - rewrite decide_True by done. done.
  - rewrite decide_False by done. done.
Qed.

Lemma X15_witness :
  ErrorFallback oneTry (mkError "") =
    VElement (mkElement DefaultErrorComponent (retryProps (mkError ""))) /\
  exists view,
    mountErrorView (ErrorFallback oneTry (mkError "")) = Some view /\
    text view = "An unexpected error occurred"%string /\
    invoke oneTry (onClick view) errorShown = handleRetry oneTry errorShown.
Proof.
  split; [reflexivity|].
  destruct (X15_default_error_view oneTry (mkError "") errorShown
              (mkElement DefaultErrorComponent (retryProps (mkError ""))))
    as (view & V1 & _ & _ & _ & V5 & V6); [reflexivity | reflexivity |].
  exists view. split; [exact V1|]. split; [exact V5 | exact V6].
Defined.

(** ** A handler that has thrown *)

Lemma Stalled_calm gen s s' : Calm s s' -> Stalled gen s -> Stalled gen s'.
Proof.
  intros Hc [Hh Hi]. split; [|by apply (Idle_calm gen s)].
  destruct Hc as (_ & _ & _ & _ & Hx & _). unfold handleOf. by rewrite Hx.
Qed.

(** Something that concerns another generation only. *)
Lemma Stalled_other gen s s' :
  (forall c, imports s' !! c = Some gen -> imports s !! c = Some gen) ->
  (forall t d, timeouts s' !! t = Some (gen, d) ->
               timeouts s !! t = Some (gen, d)) ->
  instances s' !! gen = instances s !! gen ->
  Stalled gen s -> Stalled gen s'.
Proof.
  intros Hi Ht Hx [Hh [I1 I2]]. split; [unfold handleOf in *; by rewrite Hx|].
  split.
  - intros c Hc. by apply (I1 c), Hi.
  - intros t d H. by apply (I2 t d), Ht.
Qed.

Lemma Stalled_tryImport g gen s :
  g <> gen -> Stalled gen s -> Stalled gen (tryImport g s).
Proof.
  intros Hne. unfold tryImport.
  destruct (instances s !! g) as [inst|]; [|done].
  destruct (_ || _); apply Stalled_other; try done.
  - unfold rejectHandle, updateHandle. cbn [instances emit setInstances].
    by rewrite lookup_alter_ne.
  - intros c. cbn [imports emit setCalls setImports].
    rewrite lookup_insert_Some. intros [[_ ?]|[_ ?]]; done.
Qed.

Lemma Stalled_settleImport p c gen s :
  Stalled gen s -> Stalled gen (settleImport p c s).
Proof.
  intros Hs. unfold settleImport.
  destruct (imports s !! c) as [g|] eqn:Hc; [|done].
  assert (g <> gen) as Hne.
  { intros ->. destruct Hs as [_ [I1 _]]. by apply (I1 c). }
  set (s1 := setImports (delete c (imports s)) s).
  assert (Stalled gen s1) as H1.
  { apply (Stalled_other gen s); try done.
    intros c'. unfold s1. cbn [imports setImports].
    rewrite lookup_delete_Some. by intros [_ ?]. }
  assert (forall f e, Stalled gen (emit e (updateHandle f g s1))) as Hsettle.
  { intros f e. apply (Stalled_other gen s1); try done.
    unfold updateHandle. cbn [instances emit setInstances].
    by rewrite lookup_alter_ne. }
  destruct (importFn p c) as [m|reason].
  - unfold onImportFulfilled.
    destruct (instances s1 !! g); [|done].
    destruct (_ && _); [apply Hsettle | done].
  - unfold onImportRejected.
    destruct (instances s1 !! g) as [inst|]; [|done].
    destruct (_ || _); [apply Hsettle|].
    set (s2 := setInstances _ s1).
    assert (Stalled gen s2) as H2.
    { apply (Stalled_other gen s1); try done.
      unfold s2. cbn [instances setInstances]. by rewrite lookup_insert_ne. }
    destruct reason as [|err]; [exact H2|].
    set (s3 := log p LInfo _ s2).
    assert (Stalled gen s3) as H3
      by (apply (Stalled_calm gen s2); [apply Calm_log | done]).
    destruct (_ >=? _).
    + apply (Stalled_other gen s3); try done.
      unfold rejectHandle, updateHandle. cbn [instances emit setInstances].
      by rewrite lookup_alter_ne.
    + set (s4 := log p LInfo _ s3).
      assert (Stalled gen s4) as H4
        by (apply (Stalled_calm gen s3); [apply Calm_log | done]).
      unfold createSafeTimeout. destruct (negb _); [done|].
      apply (Stalled_other gen s4); try done.
      intros t d. cbn [timeouts emit setTimers setNextTimerId setTimeouts].
      rewrite lookup_insert_Some. intros [[_ [= ? _]]|[_ ?]]; done.
Qed.

Lemma Stalled_fireTimer t gen s :
  Stalled gen s -> Stalled gen (fireTimer t s).
Proof.
  intros Hs. unfold fireTimer.
  destruct (timeouts s !! t) as [[g d]|] eqn:Ht; [|done].
  assert (g <> gen) as Hne.
  { intros ->. destruct Hs as [_ [_ I2]]. by apply (I2 t d). }
  set (s1 := setTimers _ _).
  assert (Stalled gen s1) as H1
    by exact (Stalled_calm gen s _ (Calm_expire t s) Hs).
  destruct (isMountedRef s1); [|done]. by apply Stalled_tryImport.
Qed.

Lemma Stalled_render p gen s : Stalled gen s -> Stalled gen (render p s).
Proof.
  intros Hs. unfold render.
  destruct (isMountedRef s) eqn:Hm; cbn [negb]; [|done].
  set (s1 := memoLazyComponent p s).
  assert (Stalled gen s1) as H1
    by (apply (Stalled_calm gen s); [apply Calm_memoLazyComponent | done]).
  assert (isMountedRef s1 = true) as Hm1
    by (unfold s1; by rewrite mounted_memoLazyComponent).
  assert (Stalled gen (renderChildren p s1)) as H2.
  { unfold renderChildren. destruct (boundaryError s1); [done|].
    destruct (instances s1 !! retryKey s1) as [inst|] eqn:Hi.
    - destruct (handle inst); try done.
      apply (Stalled_calm gen s1); [apply Calm_capture | done].
    - assert (retryKey s1 <> gen) as Hne.
      { intros E. destruct H1 as [Hh _]. unfold handleOf in Hh.
        by rewrite <- E, Hi in Hh. }
      rewrite executor_mounted by done.
      apply (Stalled_other gen s1); try done.
      + intros c. cbn [imports emit setCalls setImports setInstances].
        rewrite lookup_insert_Some. intros [[_ ?]|[_ ?]]; done.
      + cbn [instances emit setCalls setImports setInstances].
        by rewrite lookup_insert_ne. }
  apply (Stalled_calm gen (renderChildren p s1)); [|done].
  eapply Calm_trans; [apply Calm_commitRetryKeyEffect|]. by repeat split.
Qed.

Lemma Stalled_step p ev gen s : Stalled gen s -> Stalled gen (step p ev s).
Proof.
  intros Hs. destruct ev; cbn [step].
  - by apply Stalled_render.
  - by apply Stalled_settleImport.
  - by apply Stalled_fireTimer.
  - apply (Stalled_calm gen s); [apply Calm_capture | done].
  - apply (Stalled_calm gen s); [apply Calm_handleReset | done].
  - apply (Stalled_calm gen s); [apply Calm_handleRetry | done].
  - apply (Stalled_calm gen s); [apply Calm_unmount | done].
Qed.

Lemma Stalled_run p evs gen s : Stalled gen s -> Stalled gen (run p evs s).
Proof.
  revert s. induction evs as [|ev evs IH]; intros s Hs; [done|].
  cbn [run foldl]. apply IH. by apply Stalled_step.
Qed.

(** X16.  A rejection with [undefined] or [null] stalls its instance
    for good.  Once an import of a mounted component has been rejected
    in this way, whatever events follow, the handle of that instance
    stays pending and the instance never has an import in flight or a
    retry timer again. *)
Theorem X16_thrown_handler_stalls p evs evs' call gen :
  let s := run p evs initialState in
  isMountedRef s = true ->
  imports s !! call = Some gen ->
  importFn p call = Failed Nullish ->
  let s' := run p evs' (settleImport p call s) in
  handleOf gen s' = Some pending /\
  (forall c, imports s' !! c <> Some gen) /\
  (forall t d, timeouts s' !! t <> Some (gen, d)).
Proof.
  intros s Hm Hc Hn. cbv zeta.
  assert (Stalled gen (settleImport p call s)) as Hs.
  { pose proof (Orderly_reachable p evs) as Ho. fold s in Ho.
    destruct (Orderly_drop_import p s call gen Ho Hc)
      as (_ & Hi & ig & Hg & Hp & _).
    pose proof (ord_flags p s Ho gen ig Hg) as Hf.
    unfold settleImport. rewrite Hc, Hn.
    unfold onImportRejected. cbn [instances setImports isMountedRef].
    rewrite Hg, Hf, Hm. cbn [negb orb].
    split; [|exact Hi].
    unfold handleOf. cbn [instances emit setInstances setImports].
    rewrite lookup_insert_eq. cbn. by rewrite Hp. }
  destruct (Stalled_run p evs' gen _ Hs) as [Hh [I1 I2]]. done.
Qed.

Lemma X16_witness :
  let s := run threeTriesUndefined [Render] initialState in
  imports s !! 0%nat = Some 0 /\
  importFn threeTriesUndefined 0 = Failed Nullish /\
  handleOf 0
    (run threeTriesUndefined [Render; Render]
       (settleImport threeTriesUndefined 0 s)) = Some pending.
Proof.
  intros s.
  assert (imports s !! 0%nat = Some 0) as Hc by by vm_compute.
  split; [exact Hc|]. split; [reflexivity|].
  apply (X16_thrown_handler_stalls threeTriesUndefined [Render]
           [Render; Render] 0%nat 0);
    [by vm_compute | exact Hc | reflexivity].
Defined.
